(** * The chat widget of static/js/main.js

    A shallow embedding of the widget's script: the string helpers
    [escapeHtml], [extractMathSegments] and [restoreMathSegments], and the
    three asynchronous handlers (form submission, history replay on load,
    clear-history) as state transformers over the visible message list.

    Conventions.
    - A JS string is a sequence of UTF-16 code units.  The development works
      with Rocq's [string], that is the code units below 256.  No regular
      expression of the script carries the [u] flag, and every character test
      they make is on a code unit below 128, so a code unit above 255 behaves
      like any other character the tests reject.
    - [str.replace(re, fn)] with a global regular expression is embedded as
      [replace re fn]; the regular expressions themselves are embedded as
      data and run by a backtracking matcher, [matchAt].
    - [marked.parse] is an external library and is a parameter of the
      handlers that call it.
    - The HTML parser and the id lookup of the page are the browser's.
      The script hands them the rendering of a reply unescaped, so what
      they make of it is a parameter too, [browser]: the children a
      rendering adds to the list and the elements with the id of the
      typing bubble it brings.
    - The document is the message list, the one place the script writes
      markup to; the page around it is served markup that the script
      does not contain.
    - Scrolling and MathJax typesetting do not change the message list and
      are left out of the state. *)

From Stdlib Require Import Strings.String Strings.Ascii Lists.List.
From Stdlib Require Import Arith.PeanoNat Bool.Bool micromega.Lia.
From Stdlib Require Import Numbers.DecimalString Numbers.DecimalNat.
From Stdlib Require Numbers.DecimalFacts.
Import ListNotations.
Open Scope list_scope.
Open Scope string_scope.

(** ** Regular expressions of the script *)

Module Regex.

(** The five regular expressions of main.js are sequences of one-character
    items: a literal or a character class, taken once, lazily any number of
    times ([*?]) or greedily at least once ([+]).  [grouped] marks the items
    inside the capture group 1. *)
Inductive quantifier := Once | LazyStar | GreedyPlus.

Record atom := Atom {
  accepts : ascii -> bool;
  quant : quantifier;
  grouped : bool
}.

Definition regex := list atom.

(** What [exec] reports: the matched text and the text of group 1. *)
Record found := Found {
  matched : string;
  captured : string
}.

Definition take (a : atom) (c : ascii) (f : option found) : option found :=
  match f with
  | Some (Found m g) =>
      Some (Found (String c m) (if grouped a then String c g else g))
  | None => None
  end.

(** Every character of a text is in a class. *)
Fixpoint allIn (p : ascii -> bool) (s : string) : bool :=
  match s with
  | String c s' => p c && allIn p s'
  | EmptyString => true
  end.

(** How one item runs, given the matcher [next] of the rest of the pattern,
    with the priorities of a backtracking matcher: a lazy star first tries
    the rest of the pattern and takes one more character only when that
    fails; a greedy plus first takes as many characters as it can and gives
    them back one at a time. *)
Section Items.
Variable a : atom.
Variable next : string -> option found.

Definition once (s : string) : option found :=
  match s with
  | String c s' => if accepts a c then take a c (next s') else None
  | EmptyString => None
  end.

Fixpoint lazyStar (s : string) : option found :=
  match next s with
  | Some f => Some f
  | None =>
      match s with
      | String c s' => if accepts a c then take a c (lazyStar s') else None
      | EmptyString => None
      end
  end.

Fixpoint greedyStar (s : string) : option found :=
  match s with
  | String c s' =>
      if accepts a c then
        match take a c (greedyStar s') with
        | Some f => Some f
        | None => next s
        end
      else next s
  | EmptyString => next s
  end.

Definition greedyPlus (s : string) : option found :=
  match s with
  | String c s' => if accepts a c then take a c (greedyStar s') else None
  | EmptyString => None
  end.
End Items.

(** What an item took of a text and what the rest of the pattern matched:
    the shape of every successful run of a starred item. *)
Definition splits (a : atom) (next : string -> option found)
    (s : string) (f : found) : Prop :=
  exists pre s' f',
    s = pre ++ s' /\ next s' = Some f' /\
    matched f = pre ++ matched f' /\
    captured f = (if grouped a then pre else "") ++ captured f' /\
    allIn (accepts a) pre = true.

(** Anchored match of [r] at the head of the text. *)
Fixpoint matchAt (r : regex) : string -> option found :=
  match r with
  | [] => fun _ => Some (Found "" "")
  | a :: r' =>
      match quant a with
      | Once => once a (matchAt r')
      | LazyStar => lazyStar a (matchAt r')
      | GreedyPlus => greedyPlus a (matchAt r')
      end
  end.

Section Replace.
Context {St : Type}.
Variable re : regex.
(** The replacement callback; [St] is what the callback's closure
    mutates. *)
Variable fn : found -> St -> string * St.

(** [str.replace(re, fn)] for a global [re]: the text is scanned from the
    left; at the first position where [re] matches the callback is run and
    its result replaces the match, and the scan resumes after the match
    ([skip] counts the characters of the current match still to be passed
    over).  After an empty match the scan moves one character on. *)
Fixpoint replaceFrom (skip : nat) (s : string) (st : St) : string * St :=
  match skip, s with
  | S n, String _ s' => replaceFrom n s' st
  | S _, EmptyString => (EmptyString, st)
  | O, _ =>
      match matchAt re s with
      | Some f =>
          let (rep, st1) := fn f st in
          match s with
          | EmptyString => (rep, st1)
          | String c s' =>
              match String.length (matched f) with
              | O =>
                  let (out, st2) := replaceFrom 0 s' st1 in
                  (rep ++ String c out, st2)
              | S n =>
                  let (out, st2) := replaceFrom n s' st1 in
                  (rep ++ out, st2)
              end
          end
      | None =>
          match s with
          | EmptyString => (EmptyString, st)
          | String c s' =>
              let (out, st1) := replaceFrom 0 s' st in
              (String c out, st1)
          end
      end
  end.

Definition replace (s : string) (st : St) : string * St :=
  replaceFrom 0 s st.
End Replace.

(** Items of a pattern. *)
Definition lit (c : ascii) : atom := Atom (Ascii.eqb c) Once false.
Definition anyChar : ascii -> bool := fun _ => true.
Definition noneOf (cs : list ascii) : ascii -> bool :=
  fun c => negb (existsb (Ascii.eqb c) cs).
Definition oneOf (cs : list ascii) : ascii -> bool :=
  fun c => existsb (Ascii.eqb c) cs.
Definition digit : ascii -> bool :=
  fun c => ((48 <=? nat_of_ascii c) && (nat_of_ascii c <=? 57))%nat.


(** A run of literal characters, as a pattern. *)
Fixpoint lits (p : string) : regex :=
  match p with
  | String c p' => lit c :: lits p'
  | EmptyString => []
  end.

Definition prepend (p : string) (f : found) : found :=
  Found (p ++ matched f) (captured f).

End Regex.
Import Regex.

(** ** Strings and numbers of the host language *)

(** [String(n)] for a non-negative integer, as a template literal prints
    [math.length]. *)
Definition toString (n : nat) : string :=
  NilEmpty.string_of_uint (Nat.to_uint n).

(** [Number(s)] on a text of decimal digits; [None] is NaN.  The number is
    kept exact: a double is exact up to 2^53, far above the length an
    array can have, and a larger one is outside of every array as well. *)
Definition Number (s : string) : option nat :=
  match s with
  | EmptyString => Some 0%nat
  | _ => option_map Nat.of_uint (NilEmpty.uint_of_string s)
  end.

(** [a[i]] on an array; [None] is [undefined]. *)
Definition element {A : Type} (a : list A) (i : option nat) : option A :=
  match i with
  | Some k => nth_error a k
  | None => None
  end.

(** [x || ''] for [x] a string or [undefined]: the empty string is falsy. *)
Definition orEmpty (x : option string) : string :=
  match x with
  | Some s => if String.eqb s "" then "" else s
  | None => ""
  end.

(** White space as [String.prototype.trim] sees it, among the code units
    below 256: TAB, LF, VT, FF, CR, SP and NBSP. *)
Definition isSpace (c : ascii) : bool :=
  let n := nat_of_ascii c in
  (((9 <=? n) && (n <=? 13)) || (n =? 32) || (n =? 160))%nat.

Fixpoint trimStart (s : string) : string :=
  match s with
  | String c s' => if isSpace c then trimStart s' else s
  | EmptyString => EmptyString
  end.

Fixpoint trimEnd (s : string) : string :=
  match s with
  | String c s' =>
      match trimEnd s' with
      | EmptyString => if isSpace c then EmptyString else String c EmptyString
      | t => String c t
      end
  | EmptyString => EmptyString
  end.

Definition trim (s : string) : string := trimEnd (trimStart s).

(** ** escapeHtml (main.js, lines 180-188) *)

Definition dquote : ascii := "034"%char.

(** The object literal the callback indexes; [None] is [undefined]. *)
Definition entities : list (string * string) :=
  [ ("&", "&amp;"); ("<", "&lt;"); (">", "&gt;");
    (String dquote "", "&quot;"); ("'", "&#039;") ]%list.

Fixpoint property (o : list (string * string)) (k : string) : option string :=
  match o with
  | [] => None
  | (k', v) :: o' => if String.eqb k' k then Some v else property o' k
  end.

(** The class of the five characters that are special in HTML:
    ampersand, less-than, greater-than, double quote, single quote. *)
Definition re_special : regex :=
  [ Atom (oneOf ["&"; "<"; ">"; dquote; "'"]%char) Once false ].

(** A callback result is converted to a string: [undefined] becomes the text
    "undefined". *)
Definition escapeHtml (str : string) : string :=
  fst (replace re_special
         (fun m (_ : unit) =>
            (match property entities (matched m) with
             | Some e => e
             | None => "undefined"
             end, tt))
         str tt).

(** ** extractMathSegments (main.js, lines 191-210) *)

Definition dollar : ascii := "$"%char.
Definition backslash : ascii := "\"%char.
Definition newline : ascii := ascii_of_nat 10.

(** [/\$\$[\s\S]*?\$\$/g] *)
Definition re_display : regex :=
  [ lit dollar; lit dollar; Atom anyChar LazyStar false;
    lit dollar; lit dollar ].
(** [/\\\[[\s\S]*?\\\]/g] *)
Definition re_bracket : regex :=
  [ lit backslash; lit "["; Atom anyChar LazyStar false;
    lit backslash; lit "]" ].
(** [/\$[^$\n]+\$/g] *)
Definition re_inline : regex :=
  [ lit dollar; Atom (noneOf [dollar; newline]) GreedyPlus false;
    lit dollar ].
(** [/\\\([^\\]*?\\\)/g] *)
Definition re_paren : regex :=
  [ lit backslash; lit "("; Atom (noneOf [backslash]) LazyStar false;
    lit backslash; lit ")" ].

Definition patterns : list regex :=
  [ re_display; re_bracket; re_inline; re_paren ].

Definition placeholder (id : nat) : string :=
  "@@MATH" ++ toString id ++ "@@".

(** The callback of the extractor: [math] is the array of its closure. *)
Definition protect (m : found) (math : list string) : string * list string :=
  let id := List.length math in
  let math := (math ++ [matched m])%list in
  (placeholder id, math).

Record extraction := Extraction {
  replaced : string;
  math : list string
}.

Definition extractMathSegments (text : string) : extraction :=
  let '(replaced, math) :=
    fold_left (fun acc re => replace re protect (fst acc) (snd acc))
              patterns (text, []) in
  Extraction replaced math.

(** ** restoreMathSegments (main.js, lines 213-215) *)

(** The group of the pattern below: one or more digits, greedily. *)
Definition digitsItem : atom := Atom digit GreedyPlus true.

(** [/@@MATH(\d+)@@/g] *)
Definition re_placeholder : regex :=
  [ lit "@"; lit "@"; lit "M"; lit "A"; lit "T"; lit "H";
    digitsItem; lit "@"; lit "@" ].

Definition restoreMathSegments (html : string) (math : list string) : string :=
  fst (replace re_placeholder
         (fun m (_ : unit) => (orEmpty (element math (Number (captured m))), tt))
         html tt).

(** ** JSON values and JSON.stringify *)

(** A parsed response body.  A number is kept as the text [JSON.stringify]
    prints for it; an object is the list of its own properties in
    enumeration order. *)
#[local] Set Warnings "-register-all".
Inductive json :=
| JNull
| JBool (b : bool)
| JNum (text : string)
| JStr (s : string)
| JArr (items : list json)
| JObj (fields : list (string * json)).

Definition hexDigit (n : nat) : ascii :=
  if (n <? 10)%nat then ascii_of_nat (48 + n) else ascii_of_nat (87 + n).

(** One code unit inside a quoted JSON string. *)
Definition quoteChar (c : ascii) : string :=
  let n := nat_of_ascii c in
  if (n =? 34)%nat then String backslash (String dquote "")
  else if (n =? 92)%nat then String backslash (String backslash "")
  else if (n =? 8)%nat then "\b"
  else if (n =? 12)%nat then "\f"
  else if (n =? 10)%nat then "\n"
  else if (n =? 13)%nat then "\r"
  else if (n =? 9)%nat then "\t"
  else if (n <? 32)%nat then
    "\u00" ++ String (hexDigit (n / 16)) (String (hexDigit (n mod 16)) "")
  else String c "".

Fixpoint quoteBody (s : string) : string :=
  match s with
  | EmptyString => EmptyString
  | String c s' => quoteChar c ++ quoteBody s'
  end.

Definition quote (s : string) : string :=
  String dquote (quoteBody s ++ String dquote "").

Fixpoint stringify (v : json) : string :=
  match v with
  | JNull => "null"
  | JBool true => "true"
  | JBool false => "false"
  | JNum text => text
  | JStr s => quote s
  | JArr items =>
      "[" ++
      (fix elems (l : list json) : string :=
         match l with
         | [] => ""
         | x :: l' =>
             match l' with
             | [] => stringify x
             | _ => stringify x ++ "," ++ elems l'
             end
         end) items ++ "]"
  | JObj fields =>
      "{" ++
      (fix props (l : list (string * json)) : string :=
         match l with
         | [] => ""
         | (k, x) :: l' =>
             match l' with
             | [] => quote k ++ ":" ++ stringify x
             | _ => quote k ++ ":" ++ stringify x ++ "," ++ props l'
             end
         end) fields ++ "}"
  end.

(** [data.key] for a key that no prototype defines (output, reply);
    [None] is [undefined].  On [null] the access throws instead, which
    the callers below check first. *)
Fixpoint lookup (fields : list (string * json)) (key : string) : option json :=
  match fields with
  | [] => None
  | (k, v) :: fields' => if String.eqb k key then Some v else lookup fields' key
  end.

Definition member (data : json) (key : string) : option json :=
  match data with
  | JObj fields => lookup fields key
  | _ => None
  end.

(** ** The page *)

(** The children of the message list.  [UserBubble html] is the user
    template around the escaped text [html] and [AssistantBubble html] the
    element the assistant template opens, written with [html] in it;
    [StaticBubble] is any other child, given by its markup: what the page
    was served with, such as the default greeting, or what a reply left
    behind its own bubble (see [spill] below). *)
Inductive bubble :=
| UserBubble (html : string)
| TypingBubble
| AssistantBubble (html : string)
| ErrorBubble
| ClearedBubble
| StaticBubble (html : string).

Inductive request :=
| PostChat (message messages : string)
| GetChatHistory
| PostClearHistory.

Inductive logged :=
| ConsoleError (label detail : string)
| ConsoleWarn (label : string).

Record page := Page {
  chatMessages : list bubble;
  chatInput : string;
  requests : list request;
  console : list logged
}.

(** [insertAdjacentHTML('beforeend', ...)] of a template that holds no
    unescaped text: the user template, whose text went through
    [escapeHtml] and so has no tag in it, and the constant templates of
    the typing and the error bubble.  Each parses to one child. *)
Definition insertBubble (b : bubble) (p : page) : page :=
  Page (chatMessages p ++ [b])%list (chatInput p) (requests p) (console p).

(** The script hands the rendering of a reply to the HTML parser unescaped
    (lines 131-140 and 251-260) and looks the typing bubble up by its id in
    the whole document (lines 108 and 162).  What comes of both depends on
    the markup, which is the parser's to read; the script sees:
    - [spill html]: the children that the assistant template with [html] in
      it adds to the message list after the bubble itself, each by its
      markup.  There is none when [html] keeps inside the three elements
      of the template, and there are some when it closes them;
    - [replyCarriesId html]: the bubble that the assistant template with
      [html] in it opens has an element with the id [assistant-typing]
      inside;
    - [replyWithoutId html]: what that bubble is written with once the
      first such element has left it;
    - [childCarriesId m]: the child with the markup [m] is, or has inside,
      an element with that id;
    - [childWithoutId m]: the markup of that child once the first such
      element has left it, [None] when the element was the child. *)
Record browser := Browser {
  spill : string -> list string;
  replyCarriesId : string -> bool;
  replyWithoutId : string -> string;
  childCarriesId : string -> bool;
  childWithoutId : string -> option string
}.

(** The children the assistant template with [replyHtml] in it parses
    to. *)
Definition assistantChildren (dom : browser) (replyHtml : string) : list bubble :=
  AssistantBubble replyHtml :: map StaticBubble (spill dom replyHtml).

(** [insertAdjacentHTML('beforeend', ...)] of the assistant template. *)
Definition insertAssistant (dom : browser) (replyHtml : string) (p : page) : page :=
  Page (chatMessages p ++ assistantChildren dom replyHtml)%list
       (chatInput p) (requests p) (console p).

Definition setMessages (l : list bubble) (p : page) : page :=
  Page l (chatInput p) (requests p) (console p).
Definition setInput (v : string) (p : page) : page :=
  Page (chatMessages p) v (requests p) (console p).
Definition fetch (r : request) (p : page) : page :=
  Page (chatMessages p) (chatInput p) (requests p ++ [r])%list (console p).
Definition log (l : logged) (p : page) : page :=
  Page (chatMessages p) (chatInput p) (requests p) (console p ++ [l])%list.

(** A child of the list has an element with the id [assistant-typing]
    below it.  A user bubble holds escaped text and no element of the
    reply; the error and the cleared bubble are constants without an id. *)
Definition carries (dom : browser) (b : bubble) : bool :=
  match b with
  | AssistantBubble html => replyCarriesId dom html
  | StaticBubble m => childCarriesId dom m
  | _ => false
  end.

(** What is left of such a child once that element is removed. *)
Definition withoutTyping (dom : browser) (b : bubble) : list bubble :=
  match b with
  | AssistantBubble html => [AssistantBubble (replyWithoutId dom html)]
  | StaticBubble m =>
      match childWithoutId dom m with
      | Some m' => [StaticBubble m']
      | None => []
      end
  | _ => [b]
  end.

(** [document.getElementById('assistant-typing')?.remove()]: the first
    element with that id, in document order, leaves the page.  That is
    the first typing bubble, unless a child before it has such an element
    in its markup: then this element goes and the typing bubble stays. *)
Fixpoint removeFirstTyping (dom : browser) (l : list bubble) : list bubble :=
  match l with
  | [] => []
  | TypingBubble :: l' => l'
  | b :: l' =>
      if carries dom b then (withoutTyping dom b ++ l')%list
      else b :: removeFirstTyping dom l'
  end.

Definition removeTyping (dom : browser) (p : page) : page :=
  setMessages (removeFirstTyping dom (chatMessages p)) p.

(** What a [fetch] settles to.  [body] is what [res.json()] resolves to
    ([None] when it rejects), [text] what [res.text()] resolves to. *)
Record response := Response {
  status : nat;
  text : string;
  body : option json
}.

Inductive settled :=
| Rejected (reason : string)
| Resolved (res : response).

(** [res.ok]: the status is in the range 200-299. *)
Definition okStatus (st : nat) : bool := ((200 <=? st) && (st <=? 299))%nat.
Arguments okStatus : simpl never.

Definition ok (res : response) : bool := okStatus (status res).

(** A block that may throw: the page as the block left it, and the
    exception if one is pending. *)
Inductive completion :=
| Normal (p : page)
| Throw (p : page) (err : string).

(** ** Chat submission (main.js, lines 50-176) *)

(** The expression that picks the reply out of the parsed body; [None]
    when reading [data.output] throws. *)
Definition replyRaw (data : json) : option string :=
  match data with
  | JNull => None
  | _ =>
      Some
        match member data "output" with
        | Some (JStr s) => s
        | _ =>
            match member data "reply" with
            | Some (JStr s) => s
            | _ => stringify data
            end
        end
  end.

(** The handler up to its first [await]: the guard, the user bubble, the
    typing bubble and the request. *)
Definition submitStart (p : page) : page * bool :=
  let text := trim (chatInput p) in
  if String.eqb text "" then (p, false)
  else
    let p := insertBubble (UserBubble (escapeHtml text)) p in
    let p := setInput "" p in
    let p := insertBubble TypingBubble p in
    let p := fetch (PostChat text text) p in
    (p, true).

Section Rendering.
Variable dom : browser.
Variable marked_parse : string -> string.

(** Extractor, Markdown, Restorer. *)
Definition render (replyText : string) : string :=
  let e := extractMathSegments replyText in
  let htmlWithPlaceholders := marked_parse (replaced e) in
  restoreMathSegments htmlWithPlaceholders (math e).

(** The [try] block once the request has settled. *)
Definition submitTry (r : settled) (p : page) : completion :=
  match r with
  | Rejected reason => Throw p reason
  | Resolved res =>
      if negb (ok res) then
        Throw (log (ConsoleError "Server error body:" (text res)) p)
              ("Server error: " ++ toString (status res))
      else
        match body res with
        | None => Throw p "SyntaxError"
        | Some data =>
            match replyRaw data with
            | None => Throw p "TypeError"
            | Some raw =>
                let replyText := trim raw in
                let p := removeTyping dom p in
                if String.eqb replyText "" then
                  Normal (log (ConsoleWarn
                    "Empty reply from backend, skipping render:") p)
                else
                  Normal (insertAssistant dom (render replyText) p)
            end
        end
  end.

(** The [catch] block. *)
Definition submitCatch (err : string) (p : page) : page :=
  let p := log (ConsoleError "Error talking to backend:" err) p in
  let p := removeTyping dom p in
  insertBubble ErrorBubble p.

Definition submitSettle (r : settled) (p : page) : page :=
  match submitTry r p with
  | Normal p' => p'
  | Throw p' err => submitCatch err p'
  end.

(** A whole submission with nothing else happening while the request is
    in flight. *)
Definition submit (r : settled) (p : page) : page :=
  let (p', sent) := submitStart p in
  if sent then submitSettle r p' else p'.

(** ** History replay (main.js, lines 217-277) *)

Record turn := Turn {
  role : string;
  content : string
}.

(** The body of the [forEach] callback. *)
Definition replayTurn (p : page) (t : turn) : page :=
  if String.eqb (role t) "human" then
    insertBubble (UserBubble (escapeHtml (content t))) p
  else if String.eqb (role t) "ai" then
    let replyHtml := render (trim (content t)) in
    if String.eqb replyHtml "" then p
    else insertAssistant dom replyHtml p
  else p.

(** What [GET /chat_history] settles to: the status and, when the body
    parses to an object, its [history] field ([None] when the field is
    missing or falsy).  The turns are taken as the data contract has them,
    with a text for [role] and for [content]. *)
Inductive historySettled :=
| HistoryRejected (reason : string)
| HistoryResolved (httpStatus : nat) (history : option (option (list turn))).

Definition loadStart (p : page) : page := fetch GetChatHistory p.

Definition loadSettle (r : historySettled) (p : page) : page :=
  match r with
  | HistoryRejected reason =>
      log (ConsoleError "Failed to load chat history:" reason) p
  | HistoryResolved st parsed =>
      if negb (okStatus st) then p
      else
        match parsed with
        | None => log (ConsoleError "Failed to load chat history:" "SyntaxError") p
        | Some field =>
            let history := match field with Some h => h | None => [] end in
            match history with
            | [] => p
            | _ => fold_left replayTurn history (setMessages [] p)
            end
        end
  end.
End Rendering.

(** ** Clear history (main.js, lines 282-306) *)

Definition clearStart (p : page) : page := fetch PostClearHistory p.

Definition clearSettle (r : settled) (p : page) : page :=
  match r with
  | Rejected reason => log (ConsoleError "Error clearing history:" reason) p
  | Resolved res =>
      if negb (ok res) then
        log (ConsoleError "Failed to clear history:" (text res)) p
      else setMessages [ClearedBubble] p
  end.

(** ** Vocabulary of the specification *)

(** [strip p s] is [s] without its prefix [p], when [p] is a prefix. *)
Fixpoint strip (p s : string) : option string :=
  match p with
  | EmptyString => Some s
  | String a p' =>
      match s with
      | String c s' => if Ascii.eqb a c then strip p' s' else None
      | EmptyString => None
      end
  end.

(** The longest run of decimal digits at the head of a text, and what
    follows it. *)
Fixpoint digitsOf (s : string) : string * string :=
  match s with
  | String c s' =>
      if digit c then let (d, r) := digitsOf s' in (String c d, r)
      else (EmptyString, s)
  | EmptyString => (EmptyString, EmptyString)
  end.

(** A placeholder token at the head of a text: the six characters
    [@@MATH], one or more digits, [@@].  Returns the digits and the text
    after the token. *)
Definition tokenAt (s : string) : option (string * string) :=
  match strip "@@MATH" s with
  | Some s1 =>
      match digitsOf s1 with
      | (EmptyString, _) => None
      | (ds, s2) =>
          match strip "@@" s2 with
          | Some rest => Some (ds, rest)
          | None => None
          end
      end
  | None => None
  end.

(** A text contains a substring of the form [@@MATH<digits>@@]. *)
Fixpoint hasToken (s : string) : bool :=
  match tokenAt s with
  | Some _ => true
  | None =>
      match s with
      | String _ s' => hasToken s'
      | EmptyString => false
      end
  end.

(** The five characters with an entity, and the entity of each; any other
    character stands for itself. *)
Definition special : ascii -> bool := oneOf ["&"; "<"; ">"; dquote; "'"]%char.

Definition entity (c : ascii) : string :=
  if Ascii.eqb c "&" then "&amp;"
  else if Ascii.eqb c "<" then "&lt;"
  else if Ascii.eqb c ">" then "&gt;"
  else if Ascii.eqb c dquote then "&quot;"
  else if Ascii.eqb c "'" then "&#039;"
  else String c "".

Fixpoint escapeEach (s : string) : string :=
  match s with
  | String c s' => entity c ++ escapeEach s'
  | EmptyString => EmptyString
  end.

(** The characters that can open or close a tag or an attribute value. *)
Definition markup : ascii -> bool := oneOf ["<"; ">"; dquote; "'"]%char.

(** The number a text of decimal digits denotes. *)
Fixpoint decimalFrom (acc : nat) (ds : string) : nat :=
  match ds with
  | String c ds' => decimalFrom (10 * acc + (nat_of_ascii c - 48)) ds'
  | EmptyString => acc
  end.

Definition decimal (ds : string) : nat := decimalFrom 0 ds.

(** The segment a token with digits [ds] stands for: the entry of the table
    at that index, the empty text when the table has no such entry. *)
Definition segmentOf (math : list string) (ds : string) : string :=
  nth (decimal ds) math "".

(** The restorer as the specification words it: read from the left, every
    placeholder token gives way to its segment and every other character
    stays. *)
Inductive Restored (math : list string) : string -> string -> Prop :=
| Restored_end : Restored math "" ""
| Restored_token (ds rest out : string) :
    allIn digit ds = true -> ds <> "" ->
    Restored math rest out ->
    Restored math ("@@MATH" ++ ds ++ "@@" ++ rest) (segmentOf math ds ++ out)
| Restored_other (c : ascii) (s out : string) :
    tokenAt (String c s) = None ->
    Restored math s out ->
    Restored math (String c s) (String c out).

(** A text holds no placeholder token. *)
Definition tokenFree (m : string) : Prop := hasToken m = false.

(** One pass of the extractor as the specification words it: the matches of
    one pattern are taken from the left; the match that gets index [n] is
    stored as it is and gives way to the placeholder of [n], and the next
    match gets [n + 1].  [Pass re n text out ms]: the pass over [text] that
    starts at index [n] rewrites it to [out] and stores [ms]. *)
Inductive Pass (re : regex) : nat -> string -> string -> list string -> Prop :=
| Pass_end (n : nat) : Pass re n "" "" []
| Pass_keep (n : nat) (c : ascii) (s out : string) (ms : list string) :
    matchAt re (String c s) = None ->
    Pass re n s out ms ->
    Pass re n (String c s) (String c out) ms
| Pass_match (n : nat) (f : found) (rest out : string) (ms : list string) :
    matchAt re (matched f ++ rest) = Some f ->
    matched f <> "" ->
    Pass re (S n) rest out ms ->
    Pass re n (matched f ++ rest) (placeholder n ++ out) (matched f :: ms).

(** The characters a placeholder token is made of. *)
Definition tokenChar (c : ascii) : bool :=
  oneOf ["@"; "M"; "A"; "T"; "H"]%char c || digit c.

(** A pattern whose matches open and close with a character that no
    placeholder contains, as the four patterns of the extractor do. *)
Definition fenced (re : regex) : Prop :=
  (forall c s, tokenChar c = true -> matchAt re (String c s) = None) /\
  matchAt re "" = None /\
  (forall s f, matchAt re s = Some f ->
     exists m c, matched f = m ++ String c "" /\ tokenChar c = false).

(** A text between two passes: characters of the reply, none of which
    starts the six characters [@@MATH], and placeholders of the segments
    stored so far. *)
Inductive tokenised (n : nat) : string -> Prop :=
| tokenised_end : tokenised n ""
| tokenised_char (c : ascii) (s : string) :
    strip "@@MATH" (String c s) = None ->
    tokenised n s ->
    tokenised n (String c s)
| tokenised_token (k : nat) (s : string) :
    k < n ->
    tokenised n s ->
    tokenised n (placeholder k ++ s).

(** The message list without its first typing bubble. *)
Fixpoint withoutFirstTyping (l : list bubble) : list bubble :=
  match l with
  | [] => []
  | TypingBubble :: l' => l'
  | b :: l' => b :: withoutFirstTyping l'
  end.

(** No child before the first typing bubble has an element with the id
    of the typing bubble in its markup; when the list has no typing
    bubble, no child has. *)
Fixpoint typingComesFirst (dom : browser) (l : list bubble) : bool :=
  match l with
  | [] => true
  | TypingBubble :: _ => true
  | b :: l' => negb (carries dom b) && typingComesFirst dom l'
  end.

(** The markup keeps inside the elements of the assistant template. *)
Definition staysInside (dom : browser) (html : string) : bool :=
  match spill dom html with
  | [] => true
  | _ => false
  end.

(** A browser as far as markup goes that keeps inside its template and
    gives no element an id, such as plain text and paragraphs of it. *)
Definition tidy : browser :=
  Browser (fun _ => []) (fun _ => false) (fun html => html)
          (fun _ => false) (fun m => Some m).

(** Counting the bubbles of one kind. *)
Definition isTyping (b : bubble) : bool :=
  match b with TypingBubble => true | _ => false end.

Definition count (kind : bubble -> bool) (l : list bubble) : nat :=
  List.length (filter kind l).

(** A request that failed: the promise rejected, or the status is not
    2xx. *)
Definition failed (r : settled) : bool :=
  match r with
  | Rejected _ => true
  | Resolved res => negb (ok res)
  end.

(** The value of a key when it is a string. *)
Definition stringField (data : json) (key : string) : option string :=
  match member data key with
  | Some (JStr s) => Some s
  | _ => None
  end.

Definition nonEmpty (o : option string) : option string :=
  match o with
  | Some EmptyString => None
  | _ => o
  end.

(** The reply as the specification words it: the first non-empty of the
    two keys, else the whole body serialized. *)
Definition firstNonEmptyReply (data : json) : string :=
  match nonEmpty (stringField data "output") with
  | Some s => s
  | None =>
      match nonEmpty (stringField data "reply") with
      | Some s => s
      | None => stringify data
      end
  end.

(** The reply as the code picks it: the first of the two keys whose value
    is a string, empty or not, else the whole body serialized. *)
Definition firstStringReply (data : json) : string :=
  match stringField data "output" with
  | Some s => s
  | None =>
      match stringField data "reply" with
      | Some s => s
      | None => stringify data
      end
  end.

(** What a turn of the history is shown as: a human turn as the user
    bubble of its escaped text; an assistant turn as what the assistant
    template makes of its trimmed text, taken through the extractor, the
    Markdown renderer and the restorer, or as nothing when that is
    empty. *)
Definition shownAs (dom : browser) (marked_parse : string -> string) (t : turn) :
    list bubble :=
  if String.eqb (role t) "human" then [UserBubble (escapeHtml (content t))]
  else if String.eqb (role t) "ai" then
    match restoreMathSegments
            (marked_parse (replaced (extractMathSegments (trim (content t)))))
            (math (extractMathSegments (trim (content t)))) with
    | EmptyString => []
    | html => AssistantBubble html :: map StaticBubble (spill dom html)
    end
  else [].

(** The entries a history request brought: none when it failed or the
    field is missing. *)
Definition entries (r : historySettled) : list turn :=
  match r with
  | HistoryResolved st (Some (Some h)) =>
      if okStatus st then h else []
  | _ => []
  end.

(** [p] occurs in [s] as a substring. *)
Fixpoint occurs (p s : string) : bool :=
  match strip p s with
  | Some _ => true
  | None =>
      match s with
      | String _ s' => occurs p s'
      | EmptyString => false
      end
  end.




(** ** Menu and chat panel (main.js, lines 1-41) *)

Module ClassList.
(** The [classList] of an element: its class names, in order. *)
Definition t := list string.

Definition contains (l : t) (c : string) : bool := existsb (String.eqb c) l.

Definition add (l : t) (c : string) : t :=
  if contains l c then l else (l ++ [c])%list.

Definition remove (l : t) (c : string) : t :=
  filter (fun x => negb (String.eqb c x)) l.

Definition toggle (l : t) (c : string) : t :=
  if contains l c then remove l c else (l ++ [c])%list.
End ClassList.

(** The parts of the page the open/close wiring acts on: the class lists
    of the mobile menu and of the chat modal, and the number of focus
    timers [openChat] has set. *)
Record chrome := Chrome {
  mobileMenu : ClassList.t;
  chatModal : ClassList.t;
  focusTimers : nat
}.

(** What the [mousedown] listener asks of [e.target]. *)
Record target := Target {
  inChatPanel : bool;
  isAskBtn : bool
}.

Inductive event :=
| MenuClick
| AskClick
| CloseClick
| MouseDown (on : target)
| KeyDown (key : string).

Definition openChat (u : chrome) : chrome :=
  Chrome (mobileMenu u) (ClassList.remove (chatModal u) "hidden")
         (S (focusTimers u)).

Definition closeChat (u : chrome) : chrome :=
  Chrome (mobileMenu u) (ClassList.add (chatModal u) "hidden")
         (focusTimers u).

(** The listeners of lines 3-41, by event. *)
Definition handle (u : chrome) (e : event) : chrome :=
  match e with
  | MenuClick =>
      Chrome (ClassList.toggle (mobileMenu u) "hidden") (chatModal u)
             (focusTimers u)
  | AskClick => openChat u
  | CloseClick => closeChat u
  | MouseDown on =>
      if ClassList.contains (chatModal u) "hidden" then u
      else if negb (inChatPanel on) && negb (isAskBtn on) then closeChat u
      else u
  | KeyDown key =>
      if negb (ClassList.contains (chatModal u) "hidden") &&
         String.eqb key "Escape"
      then closeChat u
      else u
  end.

Definition run (events : list event) (u : chrome) : chrome :=
  fold_left handle events u.

(** ** More vocabulary *)

(** The chat modal is on screen. *)
Definition chatOpen (u : chrome) : bool :=
  negb (ClassList.contains (chatModal u) "hidden").

Definition isMenuClick (e : event) : bool :=
  match e with MenuClick => true | _ => false end.

Definition isAskClick (e : event) : bool :=
  match e with AskClick => true | _ => false end.

(** The characters that open a match of one of the four patterns. *)
Definition opener : ascii -> bool := oneOf [dollar; backslash].

(** The characters that close one. *)
Definition closer : ascii -> bool := oneOf [dollar; "]"; ")"]%char.

Definition firstChar (s : string) : option ascii :=
  match s with
  | String c _ => Some c
  | EmptyString => None
  end.

Fixpoint lastChar (s : string) : option ascii :=
  match s with
  | String c EmptyString => Some c
  | String _ s' => lastChar s'
  | EmptyString => None
  end.

Definition passes (test : ascii -> bool) (o : option ascii) : bool :=
  match o with
  | Some c => test c
  | None => false
  end.

Definition isUser (b : bubble) : bool :=
  match b with UserBubble _ => true | _ => false end.

Definition userHtml (b : bubble) : string :=
  match b with UserBubble html => html | _ => "" end.

(** A bubble the history replay can leave: a user bubble, or an assistant
    bubble with something in it. *)
Definition replayed (b : bubble) : bool :=
  match b with
  | UserBubble _ => true
  | AssistantBubble html => negb (String.eqb html "")
  | _ => false
  end.

(** A parsed body that is an object or an array. *)
Definition isContainer (data : json) : bool :=
  match data with
  | JObj _ | JArr _ => true
  | _ => false
  end.

(** A response with a 2xx status whose body does not parse, or parses to
    [null]. *)
Definition unreadable (r : settled) : bool :=
  match r with
  | Rejected _ => false
  | Resolved res =>
      ok res &&
      match body res with
      | None | Some JNull => true
      | Some _ => false
      end
  end.


(** * Facts *)

(** ** Texts *)

Lemma append_assoc (s t u : string) : (s ++ t) ++ u = s ++ (t ++ u).
Proof. induction s as [|c s IH]; simpl; [reflexivity | now rewrite IH]. Qed.

Lemma length_append (s t : string) :
  String.length (s ++ t) = String.length s + String.length t.
Proof. induction s as [|c s IH]; simpl; [reflexivity | now rewrite IH]. Qed.

(** Two ways to cut one text: one of the two heads is a prefix of the
    other. *)
Lemma append_eq_append (m r p q : string) :
  m ++ r = p ++ q ->
  (exists u, m = p ++ u /\ q = u ++ r) \/
  (exists c v, p = m ++ String c v /\ r = String c v ++ q).
Proof.
  revert p. induction m as [|a m IH]; intros [|b p] H; simpl in *.
  - left. exists "". now subst.
  - right. exists b, p. now subst.
  - left. exists (String a m). now subst.
  - injection H as -> H. destruct (IH _ H) as [(u & -> & ->)|(c & v & -> & ->)].
    + left. now exists u.
    + right. now exists c, v.
Qed.

Lemma strip_sound (p s r : string) : strip p s = Some r -> s = p ++ r.
Proof.
  revert s. induction p as [|a p IH]; intros s H; simpl in *.
  - now injection H as ->.
  - destruct s as [|c s]; [discriminate|].
    destruct (Ascii.eqb_spec a c) as [->|]; [|discriminate].
    now rewrite (IH _ H).
Qed.

Lemma strip_cons (a c : ascii) (p s : string) :
  strip (String a p) (String c s) = if Ascii.eqb a c then strip p s else None.
Proof. reflexivity. Qed.

Lemma strip_append (p r : string) : strip p (p ++ r) = Some r.
Proof.
  induction p as [|a p IH]; simpl; [reflexivity|].
  now rewrite Ascii.eqb_refl.
Qed.

(** ** The matcher *)

Section ItemFacts.
Variable a : atom.
Variable next : string -> option found.

Lemma splits_take (c : ascii) (s : string) (o : option found) (f : found) :
  accepts a c = true -> take a c o = Some f ->
  (forall f', o = Some f' -> splits a next s f') ->
  exists pre s' f',
    String c s = String c pre ++ s' /\ next s' = Some f' /\
    matched f = String c pre ++ matched f' /\
    captured f = (if grouped a then String c pre else "") ++ captured f' /\
    allIn (accepts a) (String c pre) = true.
Proof.
  intros A H K. destruct o as [[m g]|]; [|discriminate].
  simpl in H. injection H as <-.
  destruct (K _ eq_refl) as (pre & s' & f' & -> & N & M & C & Ev).
  simpl in M, C. subst m g.
  exists pre, s', f'. simpl. rewrite A, Ev.
  repeat split; try assumption. now destruct (grouped a).
Qed.

Lemma splits_nil (s : string) (f : found) : next s = Some f -> splits a next s f.
Proof.
  intros H. exists "", s, f. repeat split; try assumption.
  now destruct (grouped a).
Qed.

Lemma lazyStar_splits (s : string) (f : found) :
  lazyStar a next s = Some f -> splits a next s f.
Proof.
  revert f. induction s as [|c s IH]; intros f; simpl.
  - destruct (next "") eqn:E; [|discriminate].
    intros H. injection H as <-. now apply splits_nil.
  - destruct (next (String c s)) eqn:E.
    { intros H. injection H as <-. now apply splits_nil. }
    destruct (accepts a c) eqn:A; [|discriminate].
    intros H. destruct (splits_take c s _ f A H IH) as (pre & s' & f' & K).
    now exists (String c pre), s', f'.
Qed.

Lemma greedyStar_splits (s : string) (f : found) :
  greedyStar a next s = Some f -> splits a next s f.
Proof.
  revert f. induction s as [|c s IH]; intros f; simpl.
  - apply splits_nil.
  - destruct (accepts a c) eqn:A; [|apply splits_nil].
    destruct (take a c (greedyStar a next s)) eqn:E; [|apply splits_nil].
    intros H. injection H as <-.
    destruct (splits_take c s _ f0 A E IH) as (pre & s' & f' & K).
    now exists (String c pre), s', f'.
Qed.

Lemma greedyPlus_splits (s : string) (f : found) :
  greedyPlus a next s = Some f ->
  exists c pre s' f',
    s = String c pre ++ s' /\ next s' = Some f' /\
    matched f = String c pre ++ matched f' /\
    captured f = (if grouped a then String c pre else "") ++ captured f' /\
    allIn (accepts a) (String c pre) = true.
Proof.
  destruct s as [|c s]; simpl; [discriminate|].
  destruct (accepts a c) eqn:A; [|discriminate].
  intros H.
  destruct (splits_take c s _ f A H (greedyStar_splits s))
    as (pre & s' & f' & K).
  now exists c, pre, s', f'.
Qed.

Lemma once_splits (s : string) (f : found) :
  once a next s = Some f ->
  exists c s' f',
    s = String c s' /\ next s' = Some f' /\
    matched f = String c (matched f') /\
    captured f = (if grouped a then String c "" else "") ++ captured f' /\
    accepts a c = true.
Proof.
  destruct s as [|c s]; simpl; [discriminate|].
  destruct (accepts a c) eqn:A; [|discriminate].
  destruct (next s) as [[m g]|] eqn:E; simpl; [|discriminate].
  intros H. injection H as <-.
  exists c, s, (Found m g). repeat split; try assumption.
  now destruct (grouped a).
Qed.
End ItemFacts.

(** A match of [a :: r] is some characters taken by [a], all in its class,
    followed by a match of [r]. *)
Lemma matchAt_cons_inv (a : atom) (r : regex) (s : string) (f : found) :
  matchAt (a :: r) s = Some f ->
  exists pre s' f',
    s = pre ++ s' /\ matchAt r s' = Some f' /\
    matched f = pre ++ matched f' /\
    allIn (accepts a) pre = true /\
    (quant a <> LazyStar -> pre <> "").
Proof.
  simpl. destruct (quant a) eqn:Q; intros H.
  - apply once_splits in H as (c & s' & f' & -> & N & M & _ & A).
    exists (String c ""), s', f'. simpl. rewrite A. now repeat split.
  - apply lazyStar_splits in H as (pre & s' & f' & -> & N & M & _ & Ev).
    exists pre, s', f'. now repeat split.
  - apply greedyPlus_splits in H as (c & pre & s' & f' & -> & N & M & _ & Ev).
    exists (String c pre), s', f'. now repeat split.
Qed.

(** The matched text is a prefix of the text the matcher was run on. *)
Lemma matchAt_prefix (r : regex) (s : string) (f : found) :
  matchAt r s = Some f -> exists rest, s = matched f ++ rest.
Proof.
  revert s f. induction r as [|a r IH]; intros s f H.
  - simpl in H. injection H as <-. now exists s.
  - apply matchAt_cons_inv in H as (pre & s' & f' & -> & H & -> & _).
    destruct (IH _ _ H) as [rest ->]. exists rest. now rewrite append_assoc.
Qed.

Lemma matchAt_head (a : atom) (r : regex) (s : string) (f : found) :
  quant a <> LazyStar -> matchAt (a :: r) s = Some f ->
  exists c s' m,
    s = String c s' /\ matched f = String c m /\ accepts a c = true.
Proof.
  intros Q H.
  apply matchAt_cons_inv in H as (pre & s' & f' & -> & _ & -> & Ev & Ne).
  destruct pre as [|c pre]; [now elim (Ne Q)|].
  simpl in Ev. apply andb_true_iff in Ev as [A _].
  now exists c, (pre ++ s'), (pre ++ matched f').
Qed.

Lemma matchAt_head_reject (a : atom) (r : regex) (c : ascii) (s : string) :
  quant a <> LazyStar -> accepts a c = false ->
  matchAt (a :: r) (String c s) = None.
Proof.
  intros Q A. destruct (matchAt (a :: r) (String c s)) eqn:E; [|reflexivity].
  apply matchAt_head in E as (c' & s' & m & E & _ & A'); [|exact Q].
  injection E as <- _. congruence.
Qed.

(** A pattern that ends with a single character of a class matches only
    texts that end with a character of that class. *)
Lemma matchAt_last (r : regex) (a : atom) (s : string) (f : found) :
  quant a = Once -> matchAt (r ++ [a])%list s = Some f ->
  exists m c, matched f = m ++ String c "" /\ accepts a c = true.
Proof.
  intros Q. revert s f. induction r as [|b r IH]; intros s f H.
  - change (match quant a with
            | Once => once a (matchAt [])
            | LazyStar => lazyStar a (matchAt [])
            | GreedyPlus => greedyPlus a (matchAt [])
            end s = Some f) in H.
    rewrite Q in H.
    apply once_splits in H as (c & s' & f' & -> & N & M & _ & A).
    injection N as <-. now exists "", c.
  - apply matchAt_cons_inv in H as (pre & s' & f' & -> & H & -> & _ & _).
    destruct (IH _ _ H) as (m & c & -> & A).
    exists (pre ++ m), c. now rewrite append_assoc.
Qed.

(** ** Global replacement *)

Section ReplaceFacts.
Context {St : Type}.
Variable re : regex.
Variable fn : found -> St -> string * St.

Lemma replaceFrom_skip (m rest : string) (st : St) :
  replaceFrom re fn (String.length m) (m ++ rest) st =
  replaceFrom re fn 0 rest st.
Proof. induction m as [|c m IH]; simpl; [reflexivity | exact IH]. Qed.

Lemma replace_end (st : St) :
  matchAt re "" = None -> replace re fn "" st = ("", st).
Proof. unfold replace. simpl. now intros ->. Qed.

Lemma replace_keep (c : ascii) (s : string) (st : St) :
  matchAt re (String c s) = None ->
  replace re fn (String c s) st =
  (String c (fst (replace re fn s st)), snd (replace re fn s st)).
Proof.
  unfold replace. cbn [replaceFrom]. intros ->.
  now destruct (replaceFrom re fn 0 s st).
Qed.

Lemma replace_hit (f : found) (rest : string) (st : St) :
  matchAt re (matched f ++ rest) = Some f -> matched f <> "" ->
  replace re fn (matched f ++ rest) st =
  (fst (fn f st) ++ fst (replace re fn rest (snd (fn f st))),
   snd (replace re fn rest (snd (fn f st)))).
Proof.
  intros H Ne. unfold replace.
  destruct (matched f) as [|c m] eqn:E; [now elim Ne|].
  cbn [append replaceFrom]. cbn [append] in H. rewrite H, E.
  destruct (fn f st) as [rep st1]. cbn [String.length fst snd].
  rewrite replaceFrom_skip.
  now destruct (replaceFrom re fn 0 rest st1).
Qed.

(** A stretch of characters none of which can open a match is copied. *)
Lemma replace_through (p s : string) (st : St) :
  (forall c t, In c (list_ascii_of_string p) ->
               matchAt re (String c t) = None) ->
  replace re fn (p ++ s) st =
  (p ++ fst (replace re fn s st), snd (replace re fn s st)).
Proof.
  induction p as [|c p IH]; intros H; cbn [append].
  - now destruct (replace re fn s st).
  - rewrite replace_keep by (apply H; now left).
    rewrite IH by (intros; apply H; now right). reflexivity.
Qed.
End ReplaceFacts.

(** ** escapeHtml *)

(** Case split on the tests of [c] against known characters. *)
Ltac split_chars c :=
  repeat match goal with
  | |- context [Ascii.eqb c ?x] => destruct (Ascii.eqb c x); [discriminate|]
  end.

Lemma special_cases (c : ascii) :
  special c = true ->
  c = "&"%char \/ c = "<"%char \/ c = ">"%char \/ c = dquote \/ c = "'"%char.
Proof.
  unfold special, oneOf. simpl.
  repeat match goal with
  | |- context [Ascii.eqb c ?x] =>
      destruct (Ascii.eqb_spec c x) as [->|]; [tauto|]
  end.
  simpl. discriminate.
Qed.

Lemma entity_plain (c : ascii) : special c = false -> entity c = String c "".
Proof.
  unfold special, oneOf, entity. simpl. split_chars c. reflexivity.
Qed.

Lemma matchAt_special (c : ascii) (s : string) :
  matchAt re_special (String c s) =
  if special c then Some (Found (String c "") "") else None.
Proof. reflexivity. Qed.

Lemma escapeHtml_cons (c : ascii) (s : string) :
  escapeHtml (String c s) = entity c ++ escapeHtml s.
Proof.
  unfold escapeHtml. destruct (special c) eqn:Sp.
  - change (String c s) with (matched (Found (String c "") "") ++ s).
    rewrite replace_hit.
    + cbn [fst snd matched]. f_equal.
      destruct (special_cases c Sp) as [-> | [-> | [-> | [-> | ->]]]];
        reflexivity.
    + cbn [matched append]. now rewrite matchAt_special, Sp.
    + discriminate.
  - rewrite replace_keep, (entity_plain _ Sp); [reflexivity|].
    now rewrite matchAt_special, Sp.
Qed.

Lemma allIn_append (p : ascii -> bool) (s t : string) :
  allIn p (s ++ t) = allIn p s && allIn p t.
Proof.
  induction s as [|c s IH]; simpl; [reflexivity|].
  now rewrite IH, andb_assoc.
Qed.

Lemma entity_no_markup (c : ascii) :
  allIn (fun x => negb (markup x)) (entity c) = true.
Proof.
  destruct (special c) eqn:Sp.
  - destruct (special_cases c Sp) as [-> | [-> | [-> | [-> | ->]]]]; reflexivity.
  - rewrite (entity_plain _ Sp). simpl. rewrite andb_true_r.
    revert Sp. unfold special, markup, oneOf. simpl. split_chars c.
    reflexivity.
Qed.

(** C10. [escapeHtml s] is [s] with each of the five characters ampersand,
    less-than, greater-than, double quote and single quote replaced by its
    entity and every other character, the backslash among them, kept; so
    the result holds none of less-than, greater-than, double quote and
    single quote. *)
Theorem escapeHtml_replaces_each_special (s : string) :
  escapeHtml s = escapeEach s /\
  escapeHtml (String backslash "") = String backslash "" /\
  allIn (fun c => negb (markup c)) (escapeHtml s) = true.
Proof.
  assert (E : escapeHtml s = escapeEach s).
  { induction s as [|c s IH]; [reflexivity|].
    rewrite escapeHtml_cons, IH. reflexivity. }
  split; [exact E|]. split; [reflexivity|].
  rewrite E. clear E. induction s as [|c s IH]; [reflexivity|].
  simpl. now rewrite allIn_append, entity_no_markup, IH.
Qed.

(** ** The placeholder pattern *)

Lemma prepend_nil (f : found) : prepend "" f = f.
Proof. now destruct f. Qed.

(** Literal characters at the head of a pattern are stripped from the
    text. *)
Lemma matchAt_lits (p : string) (r : regex) (s : string) :
  matchAt (lits p ++ r)%list s =
  match strip p s with
  | Some s' => option_map (prepend p) (matchAt r s')
  | None => None
  end.
Proof.
  revert s. induction p as [|a p IH]; intros s.
  - cbn [lits List.app strip]. destruct (matchAt r s) as [f|]; [|reflexivity].
    simpl. now rewrite prepend_nil.
  - cbn [lits List.app strip matchAt lit quant]. unfold once.
    destruct s as [|c s]; [reflexivity|]. cbn [accepts lit].
    destruct (Ascii.eqb_spec a c) as [->|]; [|reflexivity].
    rewrite IH. destruct (strip p s) as [s'|]; [|reflexivity].
    now destruct (matchAt r s') as [[m g]|].
Qed.

Lemma digit_cases (c : ascii) :
  digit c = true ->
  In c ["0"; "1"; "2"; "3"; "4"; "5"; "6"; "7"; "8"; "9"]%char.
Proof.
  destruct c as [[] [] [] [] [] [] [] []]; intros H;
    try discriminate H; simpl; tauto.
Qed.

Lemma digit_not_at (c : ascii) : digit c = true -> Ascii.eqb "@" c = false.
Proof.
  intros H. apply digit_cases in H. simpl in H.
  repeat (destruct H as [<-|H]; [reflexivity|]). destruct H.
Qed.

Lemma greedyStar_digits (s : string) :
  greedyStar digitsItem (matchAt (lits "@@")) s =
  match strip "@@" (snd (digitsOf s)) with
  | Some _ => Some (Found (fst (digitsOf s) ++ "@@") (fst (digitsOf s)))
  | None => None
  end.
Proof.
  induction s as [|c s IH]; [reflexivity|].
  cbn [greedyStar digitsOf]. change (accepts digitsItem c) with (digit c).
  assert (N : forall t, matchAt (lits "@@") t =
              match strip "@@" t with
              | Some _ => Some (Found "@@" "")
              | None => None
              end).
  { intros t. rewrite <- (List.app_nil_r (lits "@@")), matchAt_lits.
    now destruct (strip "@@" t). }
  destruct (digit c) eqn:D.
  - rewrite IH. destruct (digitsOf s) as [d r]. cbn [fst snd].
    destruct (strip "@@" r); [reflexivity|].
    cbn [take]. rewrite N. cbn [strip]. now rewrite (digit_not_at _ D).
  - cbn [fst snd append]. rewrite N. now destruct (strip "@@" (String c s)).
Qed.

(** The pattern of the restorer finds exactly the placeholder tokens, and
    its group 1 is the digits of the token. *)
Lemma matchAt_placeholder (s : string) :
  matchAt re_placeholder s =
  match tokenAt s with
  | Some (ds, _) => Some (Found ("@@MATH" ++ ds ++ "@@") ds)
  | None => None
  end.
Proof.
  change re_placeholder
    with (lits "@@MATH" ++ digitsItem :: lits "@@")%list.
  rewrite matchAt_lits. unfold tokenAt.
  destruct (strip "@@MATH" s) as [s1|]; [|reflexivity].
  cbn [matchAt quant digitsItem]. unfold greedyPlus.
  destruct s1 as [|c s1]; [reflexivity|].
  cbn [digitsOf]. change (accepts digitsItem c) with (digit c).
  destruct (digit c) eqn:D; [|reflexivity].
  rewrite greedyStar_digits.
  destruct (digitsOf s1) as [d r]. cbn [fst snd].
  now destruct (strip "@@" r).
Qed.

(** ** Digits and numbers *)

Lemma digitsOf_sound (s : string) :
  s = fst (digitsOf s) ++ snd (digitsOf s) /\
  allIn digit (fst (digitsOf s)) = true.
Proof.
  induction s as [|c s [IH1 IH2]]; [now split|].
  simpl. destruct (digit c) eqn:D; [|now split].
  destruct (digitsOf s) as [d r]. simpl in *. rewrite D, IH2.
  split; [now f_equal | reflexivity].
Qed.

Lemma digitsOf_run (ds t : string) :
  allIn digit ds = true -> digitsOf t = ("", t) ->
  digitsOf (ds ++ t) = (ds, t).
Proof.
  intros H T. induction ds as [|c ds IH]; [exact T|].
  simpl in H. apply andb_true_iff in H as [D H].
  cbn [append digitsOf]. now rewrite D, (IH H).
Qed.

Lemma tokenAt_sound (s ds rest : string) :
  tokenAt s = Some (ds, rest) ->
  s = "@@MATH" ++ ds ++ "@@" ++ rest /\ allIn digit ds = true /\ ds <> "".
Proof.
  unfold tokenAt. destruct (strip "@@MATH" s) as [s1|] eqn:E1; [|discriminate].
  apply strip_sound in E1 as ->.
  destruct (digitsOf_sound s1) as [E D].
  destruct (digitsOf s1) as [[|c d] r]; [discriminate|].
  destruct (strip "@@" r) as [r'|] eqn:E2; [|discriminate].
  apply strip_sound in E2 as ->. intros H. injection H as <- <-.
  cbn [fst snd] in E, D. rewrite E. now repeat split.
Qed.

Lemma tokenAt_token (ds rest : string) :
  allIn digit ds = true -> ds <> "" ->
  tokenAt ("@@MATH" ++ ds ++ "@@" ++ rest) = Some (ds, rest).
Proof.
  intros D Ne. unfold tokenAt.
  rewrite strip_append, (digitsOf_run _ _ D) by reflexivity.
  destruct ds as [|c ds]; [now elim Ne|]. now rewrite strip_append.
Qed.

(** [Number] reads a text of digits as the number it denotes. *)
Lemma Number_decimal (ds : string) :
  allIn digit ds = true -> ds <> "" -> Number ds = Some (decimal ds).
Proof.
  intros D Ne.
  enough (exists u, NilEmpty.uint_of_string ds = Some u /\
                    forall acc, Nat.of_uint_acc u acc = decimalFrom acc ds)
    as (u & E & K).
  { unfold Number. destruct ds; [now elim Ne|]. rewrite E. simpl.
    unfold Nat.of_uint, decimal. now rewrite K. }
  clear Ne. induction ds as [|c ds IH].
  - exists Decimal.Nil. now split.
  - simpl in D. apply andb_true_iff in D as [Dc D].
    destruct (IH D) as (u & E & K). cbn [NilEmpty.uint_of_string].
    rewrite E. apply digit_cases in Dc. simpl in Dc.
    repeat (destruct Dc as [<-|Dc];
      [eexists; split; [reflexivity|]; intros acc;
       cbn [Nat.of_uint_acc decimalFrom]; rewrite K, Nat.tail_mul_spec;
       f_equal; simpl; lia |]).
    destruct Dc.
Qed.

Lemma toString_digits (n : nat) : allIn digit (toString n) = true.
Proof.
  unfold toString. induction (Nat.to_uint n); simpl; auto.
Qed.

Lemma toString_nonempty (n : nat) : toString n <> "".
Proof.
  unfold toString.
  assert (N : Nat.to_uint n <> Decimal.Nil).
  { rewrite <- (Unsigned.of_to n) at 1. rewrite Unsigned.to_of.
    apply DecimalFacts.unorm_nonnil. }
  destruct (Nat.to_uint n); (congruence || discriminate).
Qed.

Lemma Number_toString (n : nat) : Number (toString n) = Some n.
Proof.
  unfold Number. pose proof (toString_nonempty n) as Ne.
  destruct (toString n) eqn:E; [now elim Ne|]. rewrite <- E.
  unfold toString. rewrite NilEmpty.usu. simpl.
  now rewrite Unsigned.of_to.
Qed.

Lemma decimal_toString (n : nat) : decimal (toString n) = n.
Proof.
  pose proof (Number_decimal _ (toString_digits n) (toString_nonempty n)) as H.
  rewrite Number_toString in H. now injection H.
Qed.

Lemma orEmpty_nth (math : list string) (k : nat) :
  orEmpty (nth_error math k) = nth k math "".
Proof.
  revert k. induction math as [|m math IH]; intros [|k]; simpl; auto.
  now destruct (String.eqb_spec m "").
Qed.

(** ** restoreMathSegments *)

Lemma restore_other (c : ascii) (s : string) (math : list string) :
  tokenAt (String c s) = None ->
  restoreMathSegments (String c s) math =
  String c (restoreMathSegments s math).
Proof.
  intros H. unfold restoreMathSegments. rewrite replace_keep; [reflexivity|].
  now rewrite matchAt_placeholder, H.
Qed.

Lemma restore_token (ds rest : string) (math : list string) :
  allIn digit ds = true -> ds <> "" ->
  restoreMathSegments ("@@MATH" ++ ds ++ "@@" ++ rest) math =
  segmentOf math ds ++ restoreMathSegments rest math.
Proof.
  intros D Ne. unfold restoreMathSegments.
  set (f := Found ("@@MATH" ++ ds ++ "@@") ds).
  replace ("@@MATH" ++ ds ++ "@@" ++ rest) with (matched f ++ rest)
    by (unfold f; cbn [matched]; now rewrite !append_assoc).
  rewrite replace_hit.
  - cbn [fst snd]. f_equal. unfold f. cbn [captured].
    rewrite (Number_decimal _ D Ne). cbn [element]. apply orEmpty_nth.
  - unfold f at 1. cbn [matched]. rewrite !append_assoc.
    now rewrite matchAt_placeholder, (tokenAt_token _ _ D Ne).
  - discriminate.
Qed.

Lemma restore_placeholder (k : nat) (s : string) (math : list string) :
  restoreMathSegments (placeholder k ++ s) math =
  nth k math "" ++ restoreMathSegments s math.
Proof.
  unfold placeholder. rewrite !append_assoc.
  rewrite restore_token by (apply toString_digits || apply toString_nonempty).
  unfold segmentOf. now rewrite decimal_toString.
Qed.

Lemma restore_Restored (n : nat) :
  forall html math,
    String.length html <= n -> Restored math html (restoreMathSegments html math).
Proof.
  induction n as [|n IH]; intros html math L.
  - destruct html; [constructor | simpl in L; lia].
  - destruct (tokenAt html) as [[ds rest]|] eqn:T.
    + apply tokenAt_sound in T as (-> & D & Ne).
      rewrite (restore_token _ _ _ D Ne).
      constructor; try assumption. apply IH.
      simpl in L. rewrite !length_append in L. simpl in L. lia.
    + destruct html as [|c s]; [constructor|].
      rewrite (restore_other _ _ _ T). constructor; [exact T|].
      apply IH. simpl in L. lia.
Qed.

(** C9. For every HTML text and every segment table, the restorer replaces
    every placeholder token by the table entry at the index the digits of
    the token denote, keeps every other character, and puts the empty text
    for a token whose index is outside of the table. *)
Theorem restoreMathSegments_replaces_tokens (html : string) (math : list string) :
  Restored math html (restoreMathSegments html math) /\
  forall ds rest,
    allIn digit ds = true -> ds <> "" -> List.length math <= decimal ds ->
    restoreMathSegments ("@@MATH" ++ ds ++ "@@" ++ rest) math =
    restoreMathSegments rest math.
Proof.
  split; [now apply (restore_Restored (String.length html))|].
  intros ds rest D Ne L. rewrite (restore_token _ _ _ D Ne).
  unfold segmentOf. now rewrite nth_overflow.
Qed.

Lemma restoreMathSegments_replaces_tokens_witness :
  Restored ["x"; "y"] "a@@MATH1@@b" (restoreMathSegments "a@@MATH1@@b" ["x"; "y"]) /\
  restoreMathSegments "@@MATH7@@!" ["x"; "y"] = restoreMathSegments "!" ["x"; "y"].
Proof.
  destruct (restoreMathSegments_replaces_tokens "a@@MATH1@@b" ["x"; "y"])
    as [R K].
  split; [exact R|].
  apply (K "7" "!"); [reflexivity | discriminate | vm_compute; lia].
Defined.

(** ** The four patterns of the extractor *)

Lemma tokenChar_differs (a c : ascii) :
  tokenChar a = false -> tokenChar c = true -> Ascii.eqb a c = false.
Proof.
  intros Ha Hc. destruct (Ascii.eqb_spec a c) as [->|]; congruence.
Qed.

Lemma fenced_between (a b : ascii) (mid : regex) :
  tokenChar a = false -> tokenChar b = false ->
  fenced (lit a :: mid ++ [lit b])%list.
Proof.
  intros Ha Hb. repeat split.
  - intros c s Hc. apply matchAt_head_reject; [discriminate|].
    exact (tokenChar_differs _ _ Ha Hc).
  - intros s f H.
    apply (matchAt_last (lit a :: mid)) in H as (m & c & E & A);
      [|reflexivity].
    exists m, c. split; [exact E|].
    simpl in A. apply Ascii.eqb_eq in A as <-. exact Hb.
Qed.

Lemma fenced_patterns (re : regex) : In re patterns -> fenced re.
Proof.
  intros [<-|[<-|[<-|[<-|[]]]]].
  - now apply (fenced_between dollar dollar
      [lit dollar; Atom anyChar LazyStar false; lit dollar]).
  - now apply (fenced_between backslash "]"
      [lit "["; Atom anyChar LazyStar false; lit backslash]).
  - now apply (fenced_between dollar dollar
      [Atom (noneOf [dollar; newline]) GreedyPlus false]).
  - now apply (fenced_between backslash ")"
      [lit "("; Atom (noneOf [backslash]) LazyStar false; lit backslash]).
Qed.

Lemma fenced_nonempty (re : regex) (s : string) (f : found) :
  fenced re -> matchAt re s = Some f -> matched f <> "".
Proof.
  intros (_ & _ & K) H. destruct (K _ _ H) as (m & c & -> & _).
  now destruct m.
Qed.

(** ** One pass of the extractor *)

Lemma protect_eq (f : found) (math : list string) :
  protect f math = (placeholder (List.length math), (math ++ [matched f])%list).
Proof. reflexivity. Qed.

Lemma pass_Pass (re : regex) (n : nat) :
  fenced re ->
  forall s math, String.length s <= n ->
    exists ms,
      Pass re (List.length math) s (fst (replace re protect s math)) ms /\
      snd (replace re protect s math) = (math ++ ms)%list.
Proof.
  intros F. induction n as [|n IH]; intros s math L.
  - destruct s; [|simpl in L; lia].
    rewrite replace_end by apply F. exists []. rewrite List.app_nil_r.
    split; [constructor | reflexivity].
  - destruct (matchAt re s) as [f|] eqn:M.
    + destruct (matchAt_prefix _ _ _ M) as [rest ->].
      pose proof (fenced_nonempty _ _ _ F M) as Ne.
      rewrite (replace_hit _ _ _ _ _ M Ne), protect_eq. cbn [fst snd].
      destruct (IH rest (math ++ [matched f])%list) as (ms & P & E).
      { rewrite length_append in L.
        destruct (matched f); [now elim Ne | simpl in L; lia]. }
      exists (matched f :: ms). split.
      * constructor; try assumption.
        rewrite List.length_app, Nat.add_1_r in P. exact P.
      * rewrite E, <- List.app_assoc. reflexivity.
    + destruct s as [|c s].
      * rewrite replace_end by exact M. exists []. rewrite List.app_nil_r.
        split; [constructor | reflexivity].
      * rewrite (replace_keep _ _ _ _ _ M). cbn [fst snd].
        destruct (IH s math) as (ms & P & E); [simpl in L; lia|].
        exists ms. split; [now constructor | exact E].
Qed.

Lemma extract_passes (text : string) :
  extractMathSegments text =
  let p1 := replace re_display protect text [] in
  let p2 := replace re_bracket protect (fst p1) (snd p1) in
  let p3 := replace re_inline protect (fst p2) (snd p2) in
  let p4 := replace re_paren protect (fst p3) (snd p3) in
  Extraction (fst p4) (snd p4).
Proof.
  unfold extractMathSegments, patterns. cbn [fold_left fst snd].
  now destruct (replace re_paren _ _ _).
Qed.

(** C8. The extractor runs its four patterns one after another, each over
    the text the one before left; within a pass the matches are taken from
    the left, each gets the next index, is appended to the table as matched
    and gives way to the placeholder of its index.  On the text of the
    example the table and the rewritten text are the ones the specification
    gives. *)
Theorem extractMathSegments_indexes_in_pass_order :
  (forall text, exists r1 r2 r3 ms1 ms2 ms3 ms4,
     Pass re_display 0 text r1 ms1 /\
     Pass re_bracket (List.length ms1) r1 r2 ms2 /\
     Pass re_inline (List.length (ms1 ++ ms2)) r2 r3 ms3 /\
     Pass re_paren (List.length (ms1 ++ ms2 ++ ms3)) r3
          (replaced (extractMathSegments text)) ms4 /\
     math (extractMathSegments text) = (ms1 ++ ms2 ++ ms3 ++ ms4)%list) /\
  extractMathSegments "Cost: $$x^2$$ and inline $y$" =
  Extraction "Cost: @@MATH0@@ and inline @@MATH1@@" ["$$x^2$$"; "$y$"].
Proof.
  split; [|reflexivity]. intros text. rewrite extract_passes.
  assert (P : forall re, In re patterns -> forall s math, exists ms,
            Pass re (List.length math) s (fst (replace re protect s math)) ms /\
            snd (replace re protect s math) = (math ++ ms)%list).
  { intros re I s math.
    now apply (pass_Pass re (String.length s) (fenced_patterns re I)). }
  destruct (P re_display (or_introl eq_refl) text []) as (ms1 & P1 & E1).
  destruct (replace re_display protect text []) as [r1 m1].
  cbn [fst snd List.app] in *. subst m1.
  destruct (P re_bracket (or_intror (or_introl eq_refl)) r1 ms1)
    as (ms2 & P2 & E2).
  destruct (replace re_bracket protect r1 ms1) as [r2 m2].
  cbn [fst snd] in *. subst m2.
  destruct (P re_inline (or_intror (or_intror (or_introl eq_refl)))
              r2 (ms1 ++ ms2)%list) as (ms3 & P3 & E3).
  destruct (replace re_inline protect r2 (ms1 ++ ms2)%list) as [r3 m3].
  cbn [fst snd] in *. subst m3.
  destruct (P re_paren
              (or_intror (or_intror (or_intror (or_introl eq_refl))))
              r3 ((ms1 ++ ms2) ++ ms3)%list) as (ms4 & P4 & E4).
  destruct (replace re_paren protect r3 ((ms1 ++ ms2) ++ ms3)%list) as [r4 m4].
  cbn [fst snd replaced math] in *. subst m4.
  exists r1, r2, r3, ms1, ms2, ms3, ms4.
  rewrite <- !List.app_assoc in *. now repeat split.
Qed.

(** ** Texts between two passes *)

Lemma strip_tokenAt (s : string) : strip "@@MATH" s = None -> tokenAt s = None.
Proof. unfold tokenAt. now intros ->. Qed.

Lemma placeholder_chars (k : nat) : allIn tokenChar (placeholder k) = true.
Proof.
  unfold placeholder. rewrite !allIn_append.
  assert (D : forall s, allIn digit s = true -> allIn tokenChar s = true).
  { induction s as [|c s IH]; simpl; [reflexivity|].
    intros H. apply andb_true_iff in H as [Dc H].
    unfold tokenChar at 1. now rewrite Dc, orb_true_r, IH. }
  now rewrite (D _ (toString_digits k)).
Qed.

Lemma placeholder_cons (k : nat) :
  exists t, placeholder k = String "@" (String "@" t).
Proof. unfold placeholder. cbn [append]. eauto. Qed.

Lemma allIn_In (p : ascii -> bool) (s : string) (c : ascii) :
  allIn p s = true -> In c (list_ascii_of_string s) -> p c = true.
Proof.
  induction s as [|a s IH]; simpl; [tauto|].
  intros H [<-|I]; apply andb_true_iff in H as [Ha H]; auto.
Qed.

Lemma tokenAt_placeholder (k : nat) (s : string) :
  tokenAt (placeholder k ++ s) = Some (toString k, s).
Proof.
  unfold placeholder. rewrite !append_assoc.
  apply tokenAt_token; [apply toString_digits | apply toString_nonempty].
Qed.

Lemma hasToken_here (s : string) (x : string * string) :
  tokenAt s = Some x -> hasToken s = true.
Proof. intros H. destruct s; cbn [hasToken]; now rewrite H. Qed.

Lemma hasToken_placeholder (k : nat) (s : string) :
  hasToken (placeholder k ++ s) = true.
Proof. exact (hasToken_here _ _ (tokenAt_placeholder k s)). Qed.

(** [hasToken] and [occurs] say what they are meant to say. *)
Lemma hasToken_iff (s : string) :
  hasToken s = true <->
  exists pre ds post,
    allIn digit ds = true /\ ds <> "" /\
    s = pre ++ "@@MATH" ++ ds ++ "@@" ++ post.
Proof.
  split.
  - induction s as [|c s IH]; cbn [hasToken].
    + change (tokenAt "") with (@None (string * string)). discriminate.
    + destruct (tokenAt (String c s)) as [[ds rest]|] eqn:T.
      * apply tokenAt_sound in T as (E & D & Ne).
        intros _. now exists "", ds, rest.
      * intros H. destruct (IH H) as (pre & ds & post & D & Ne & ->).
        now exists (String c pre), ds, post.
  - intros (pre & ds & post & D & Ne & ->).
    induction pre as [|c pre IH].
    + exact (hasToken_here _ _ (tokenAt_token _ post D Ne)).
    + cbn [append hasToken]. now destruct (tokenAt _).
Qed.

Lemma occurs_iff (p s : string) :
  occurs p s = true <-> exists pre post, s = pre ++ p ++ post.
Proof.
  split.
  - induction s as [|c s IH]; cbn [occurs].
    + destruct (strip p "") as [r|] eqn:E; [|discriminate].
      intros _. exists "", r. exact (strip_sound _ _ _ E).
    + destruct (strip p (String c s)) as [r|] eqn:E.
      * intros _. exists "", r. exact (strip_sound _ _ _ E).
      * intros H. destruct (IH H) as (pre & post & ->).
        now exists (String c pre), post.
  - intros (pre & post & ->). induction pre as [|c pre IH].
    + cbn [append]. destruct (p ++ post) eqn:E; cbn [occurs];
        now rewrite <- E, strip_append.
    + cbn [append occurs]. now destruct (strip p _).
Qed.

Lemma tokenised_weaken (n n' : nat) (s : string) :
  n <= n' -> tokenised n s -> tokenised n' s.
Proof.
  intros L T. induction T; constructor; (assumption || lia).
Qed.

(** Stored segments appended after the ones a text refers to do not change
    what the text restores to. *)
Lemma restore_extend (n : nat) (s : string) (math more : list string) :
  tokenised n s -> n <= List.length math ->
  restoreMathSegments s (math ++ more)%list = restoreMathSegments s math.
Proof.
  intros T L. induction T as [|c s S T IH|k s K T IH].
  - reflexivity.
  - rewrite !restore_other by now apply strip_tokenAt. now rewrite IH.
  - rewrite !restore_placeholder, IH. now rewrite List.app_nth1 by lia.
Qed.

(** A text with no placeholder restores to itself. *)
Lemma restore_plain (s : string) (math : list string) :
  tokenised 0 s -> restoreMathSegments s math = s.
Proof.
  intros T. induction T as [|c s S T IH|k s K T IH].
  - reflexivity.
  - rewrite restore_other by now apply strip_tokenAt. now rewrite IH.
  - lia.
Qed.

Lemma occurs_tokenised (s : string) :
  occurs "@@MATH" s = false -> tokenised 0 s.
Proof.
  induction s as [|c s IH]; [constructor|].
  cbn [occurs]. destruct (strip "@@MATH" (String c s)) eqn:E; [discriminate|].
  intros H. constructor; [exact E | now apply IH].
Qed.

(** ** A pass over a text between two passes *)

Section PassFacts.
Variable re : regex.
Hypothesis F : fenced re.

Lemma replace_extends (s : string) (math : list string) :
  exists ms, snd (replace re protect s math) = (math ++ ms)%list.
Proof.
  destruct (pass_Pass re (String.length s) F s math (le_n _)) as (ms & _ & E).
  now exists ms.
Qed.

(** If the characters [a :: p] are not at the head of a text, they are not
    at the head of what a pass makes of it either, provided they are not
    the first characters of a placeholder and the same holds of [p]. *)
Lemma strip_pass_step (a : ascii) (p : string) :
  (forall t, strip (String a p) (String "@" (String "@" t)) = None) ->
  (forall s math, strip p s = None ->
     strip p (fst (replace re protect s math)) = None) ->
  forall s math, strip (String a p) s = None ->
    strip (String a p) (fst (replace re protect s math)) = None.
Proof.
  intros At Z s math H. destruct (matchAt re s) as [f|] eqn:M.
  - destruct (matchAt_prefix _ _ _ M) as [rest ->].
    rewrite (replace_hit _ _ _ _ _ M (fenced_nonempty _ _ _ F M)), protect_eq.
    cbn [fst snd]. destruct (placeholder_cons (List.length math)) as [t ->].
    cbn [append]. apply At.
  - destruct s as [|c s]; [now rewrite replace_end|].
    rewrite (replace_keep _ _ _ _ _ M). cbn [fst strip] in *.
    destruct (Ascii.eqb a c); [now apply Z | reflexivity].
Qed.

Lemma strip_pass (c : ascii) (s : string) (math : list string) :
  strip "@@MATH" (String c s) = None ->
  strip "@@MATH" (String c (fst (replace re protect s math))) = None.
Proof.
  rewrite !strip_cons. destruct (Ascii.eqb "@" c); [|reflexivity].
  revert s math.
  repeat (apply strip_pass_step; [reflexivity|]).
  discriminate.
Qed.

(** A match that holds no placeholder lies between the placeholders of the
    text: what follows it is again a text between two passes, and the
    restorer leaves the match as it is. *)
Lemma match_between_tokens (n : nat) (math : list string) (rest m : string) :
  tokenised n (m ++ rest) -> hasToken m = false ->
  (m = "" \/ exists m0 c, m = m0 ++ String c "" /\ tokenChar c = false) ->
  tokenised n rest /\
  restoreMathSegments (m ++ rest) math = m ++ restoreMathSegments rest math.
Proof.
  induction m as [|a m IH]; intros T N E; [now split|].
  assert (N' : hasToken m = false).
  { cbn [hasToken] in N. now destruct (tokenAt (String a m)). }
  assert (E' : m = "" \/
               exists m0 c, m = m0 ++ String c "" /\ tokenChar c = false).
  { destruct E as [E|(m0 & c & E & K)]; [discriminate|].
    destruct m0 as [|b m0]; simpl in E; injection E as -> ->; eauto. }
  remember (String a m ++ rest) as w eqn:W.
  destruct T as [|c s S T'|k s K T'].
  - discriminate.
  - cbn [append] in W. injection W as -> ->.
    destruct (IH T' N' E') as [T2 R]. split; [exact T2|].
    cbn [append]. rewrite restore_other by now apply strip_tokenAt.
    now rewrite R.
  - exfalso. symmetry in W.
    apply append_eq_append in W as [(u & Eu & _)|(c & v & Ep & _)].
    + rewrite Eu, hasToken_placeholder in N. discriminate.
    + destruct E as [E|(m0 & c0 & E & C0)]; [discriminate|].
      pose proof (placeholder_chars k) as A.
      rewrite Ep, E, !allIn_append in A. simpl in A.
      rewrite C0, andb_false_r in A. discriminate.
Qed.
End PassFacts.

(** A pass keeps what the text restores to, as long as no match it stores
    holds a placeholder. *)
Lemma pass_restores (re : regex) (n : nat) :
  fenced re ->
  forall s math,
    String.length s <= n ->
    tokenised (List.length math) s ->
    Forall tokenFree (snd (replace re protect s math)) ->
    tokenised (List.length (snd (replace re protect s math)))
              (fst (replace re protect s math)) /\
    restoreMathSegments (fst (replace re protect s math))
                        (snd (replace re protect s math)) =
    restoreMathSegments s math.
Proof.
  intros F. induction n as [|n IH]; intros s math L T A.
  - destruct s; [|simpl in L; lia].
    rewrite replace_end in * by apply F. now split; [constructor|].
  - destruct T as [|c s S T|k s K T].
    + rewrite replace_end in * by apply F. now split; [constructor|].
    + destruct (matchAt re (String c s)) as [f|] eqn:M.
      * destruct (matchAt_prefix _ _ _ M) as [rest W].
        assert (T0 : tokenised (List.length math) (matched f ++ rest))
          by (rewrite <- W; now constructor).
        rewrite W in *. clear W S T.
        pose proof (fenced_nonempty _ _ _ F M) as Ne.
        rewrite (replace_hit _ _ _ _ _ M Ne), protect_eq in *.
        cbn [fst snd] in *.
        destruct (replace_extends re F rest (math ++ [matched f])%list)
          as [ms E].
        pose proof A as A'. rewrite E in A'.
        apply Forall_app in A' as [A' _]. apply Forall_app in A' as [_ A'].
        apply Forall_inv in A'.
        destruct (match_between_tokens _ math _ _ T0 A') as [T1 R1].
        { right. destruct F as (_ & _ & C). exact (C _ _ M). }
        destruct (IH rest (math ++ [matched f])%list) as [T2 R2].
        { rewrite length_append in L.
          destruct (matched f); [now elim Ne | simpl in L; lia]. }
        { apply (tokenised_weaken (List.length math)); [|exact T1].
          rewrite List.length_app. lia. }
        { exact A. }
        split.
        -- constructor; [|exact T2].
           rewrite E, !List.length_app. simpl. lia.
        -- rewrite restore_placeholder, R2, R1.
           rewrite (restore_extend _ _ _ _ T1 (le_n _)). f_equal.
           rewrite E, <- List.app_assoc. simpl.
           now rewrite List.nth_middle.
      * rewrite (replace_keep _ _ _ _ _ M) in *. cbn [fst snd] in *.
        destruct (IH s math) as [T2 R2];
          [simpl in L; lia | exact T | exact A |].
        split.
        -- constructor; [now apply strip_pass | exact T2].
        -- rewrite !restore_other, R2; [reflexivity | |];
             apply strip_tokenAt; [exact S | now apply strip_pass].
    + pose proof (placeholder_chars k) as C.
      assert (Th : forall c t, In c (list_ascii_of_string (placeholder k)) ->
                   matchAt re (String c t) = None).
      { intros c t I. destruct F as (O & _). apply O.
        exact (allIn_In _ _ _ C I). }
      rewrite (replace_through _ _ _ _ _ Th) in *. cbn [fst snd] in *.
      destruct (replace_extends re F s math) as [ms E].
      destruct (IH s math) as [T2 R2]; [| exact T | exact A |].
      { rewrite length_append in L.
        destruct (placeholder_cons k) as [t Et]. rewrite Et in L.
        simpl in L. lia. }
      split.
      * constructor; [|exact T2]. rewrite E, List.length_app. lia.
      * rewrite !restore_placeholder, R2. f_equal.
        rewrite E. now apply List.app_nth1.
Qed.

(** ** Round trip *)

(** C1, as amended.  For every text that does not contain the six
    characters [@@MATH], if no segment the extractor stores contains a
    placeholder token (no match of a later pattern spans a placeholder put
    in by an earlier one), the restorer applied to the rewritten text and
    the table of the extractor gives the text back. *)
Theorem restore_extract_round_trip (T : string) :
  occurs "@@MATH" T = false ->
  Forall tokenFree (math (extractMathSegments T)) ->
  restoreMathSegments (replaced (extractMathSegments T))
                      (math (extractMathSegments T)) = T.
Proof.
  intros O A. rewrite extract_passes in *. cbv zeta in *.
  cbn [replaced math] in *.
  set (p1 := replace re_display protect T []) in *.
  set (p2 := replace re_bracket protect (fst p1) (snd p1)) in *.
  set (p3 := replace re_inline protect (fst p2) (snd p2)) in *.
  set (p4 := replace re_paren protect (fst p3) (snd p3)) in *.
  assert (F1 : fenced re_display) by (apply fenced_patterns; simpl; tauto).
  assert (F2 : fenced re_bracket) by (apply fenced_patterns; simpl; tauto).
  assert (F3 : fenced re_inline) by (apply fenced_patterns; simpl; tauto).
  assert (F4 : fenced re_paren) by (apply fenced_patterns; simpl; tauto).
  destruct (replace_extends _ F4 (fst p3) (snd p3)) as [ms4 E4].
  destruct (replace_extends _ F3 (fst p2) (snd p2)) as [ms3 E3].
  destruct (replace_extends _ F2 (fst p1) (snd p1)) as [ms2 E2].
  fold p4 in E4. fold p3 in E3. fold p2 in E2.
  assert (A3 : Forall tokenFree (snd p3))
    by (rewrite E4 in A; now apply Forall_app in A).
  assert (A2 : Forall tokenFree (snd p2))
    by (rewrite E3 in A3; now apply Forall_app in A3).
  assert (A1 : Forall tokenFree (snd p1))
    by (rewrite E2 in A2; now apply Forall_app in A2).
  destruct (pass_restores _ _ F1 T [] (le_n _) (occurs_tokenised _ O) A1)
    as [T1 R1]. fold p1 in T1, R1.
  destruct (pass_restores _ _ F2 _ _ (le_n _) T1 A2) as [T2 R2].
  fold p2 in T2, R2.
  destruct (pass_restores _ _ F3 _ _ (le_n _) T2 A3) as [T3 R3].
  fold p3 in T3, R3.
  destruct (pass_restores _ _ F4 _ _ (le_n _) T3 A) as [_ R4].
  fold p4 in R4.
  rewrite R4, R3, R2, R1. apply restore_plain. now apply occurs_tokenised.
Qed.

Lemma restore_extract_round_trip_witness :
  restoreMathSegments
    (replaced (extractMathSegments "Cost: $$x^2$$ and inline $y$"))
    (math (extractMathSegments "Cost: $$x^2$$ and inline $y$")) =
  "Cost: $$x^2$$ and inline $y$".
Proof.
  apply (restore_extract_round_trip "Cost: $$x^2$$ and inline $y$").
  - reflexivity.
  - vm_compute. repeat constructor.
Defined.

(** C1, as stated, fails.  Neither text below contains a substring of the
    form [@@MATH<digits>@@].  In the first the inline pattern matches across
    the placeholder the display pattern put in, and the restorer, which
    does not look into what it puts back, leaves that placeholder in the
    result.  In the second the placeholder lands right after the characters
    [@@MATH1] of the text, and the restorer takes [@@MATH1@@] for a token. *)
Lemma round_trip_fails_without_token_in_text :
  (hasToken "$a $$x$$ b$" = false /\
   restoreMathSegments (replaced (extractMathSegments "$a $$x$$ b$"))
                       (math (extractMathSegments "$a $$x$$ b$"))
   <> "$a $$x$$ b$") /\
  (hasToken "@@MATH1$$x$$" = false /\
   restoreMathSegments (replaced (extractMathSegments "@@MATH1$$x$$"))
                       (math (extractMathSegments "@@MATH1$$x$$"))
   <> "@@MATH1$$x$$").
Proof. repeat split; (reflexivity || (vm_compute; discriminate)). Qed.

(** C3: what the code does on a reply in which the inline pattern matches
    across a placeholder of the display pattern.  The reply has no token in
    it.  The display pattern stores its match as segment 0; the inline
    pattern then matches from the first dollar sign to the last, across the
    placeholder of segment 0, and stores that as segment 1.  The restorer
    puts segment 1 back and does not look into it, so the placeholder of
    segment 0 reaches the display: a token put in by the extractor is left
    in the result. *)
Theorem nested_placeholder_reaches_display :
  let reply := "Pay $5 for $$x$$ or $6" in
  hasToken reply = false /\
  extractMathSegments reply =
    Extraction "Pay @@MATH1@@6" ["$$x$$"; "$5 for @@MATH0@@ or $"] /\
  restoreMathSegments (replaced (extractMathSegments reply))
                      (math (extractMathSegments reply))
    = "Pay $5 for @@MATH0@@ or $6" /\
  hasToken (restoreMathSegments (replaced (extractMathSegments reply))
                                (math (extractMathSegments reply))) = true.
Proof. repeat split; reflexivity. Qed.

(** ** Chat submission *)

Lemma trimStart_spaces (s : string) :
  allIn isSpace s = true -> trimStart s = "".
Proof.
  induction s as [|c s IH]; simpl; [reflexivity|].
  intros H. apply andb_true_iff in H as [-> H]. now apply IH.
Qed.

(** C7. A submission whose input is empty or white space only changes
    nothing: the handler returns at its guard, the page is as it was, so
    no bubble is appended and no request is issued. *)
Theorem submit_blank_input_is_rejected
    (dom : browser) (marked_parse : string -> string) (r : settled) (p : page) :
  allIn isSpace (chatInput p) = true ->
  submitStart p = (p, false) /\
  submit dom marked_parse r p = p /\
  chatMessages (submit dom marked_parse r p) = chatMessages p /\
  requests (submit dom marked_parse r p) = requests p.
Proof.
  intros H. assert (E : submitStart p = (p, false)).
  { unfold submitStart, trim. now rewrite (trimStart_spaces _ H). }
  unfold submit. rewrite E. now repeat split.
Qed.

Lemma submit_blank_input_is_rejected_witness :
  submitStart (Page [StaticBubble "Hello"] "   " [] []) =
    (Page [StaticBubble "Hello"] "   " [] [], false) /\
  submit tidy (fun s => s) (Rejected "offline")
         (Page [StaticBubble "Hello"] "   " [] []) =
    Page [StaticBubble "Hello"] "   " [] [] /\
  chatMessages (submit tidy (fun s => s) (Rejected "offline")
                       (Page [StaticBubble "Hello"] "   " [] [])) =
    [StaticBubble "Hello"] /\
  requests (submit tidy (fun s => s) (Rejected "offline")
                   (Page [StaticBubble "Hello"] "   " [] [])) = [].
Proof.
  apply (submit_blank_input_is_rejected tidy (fun s => s) (Rejected "offline")
           (Page [StaticBubble "Hello"] "   " [] [])).
  reflexivity.
Defined.

Lemma count_app (kind : bubble -> bool) (l l' : list bubble) :
  count kind (l ++ l')%list = count kind l + count kind l'.
Proof. unfold count. now rewrite filter_app, List.length_app. Qed.


Lemma count_typing_removed (l : list bubble) :
  count isTyping (withoutFirstTyping l) = pred (count isTyping l).
Proof.
  induction l as [|b l IH]; [reflexivity|].
  unfold count in *. destruct b; simpl; auto.
Qed.

(** The lookup by id finds the typing bubble when no child before it has
    the id in its markup. *)
Lemma removeFirstTyping_first (dom : browser) (l : list bubble) :
  typingComesFirst dom l = true ->
  removeFirstTyping dom l = withoutFirstTyping l.
Proof.
  induction l as [|b l IH]; [reflexivity|].
  destruct b; cbn [typingComesFirst removeFirstTyping withoutFirstTyping carries negb andb];
    intros H; try (now rewrite IH); try reflexivity;
    apply andb_true_iff in H as [C H]; apply negb_true_iff in C;
    now rewrite C, IH.
Qed.

Lemma typingComesFirst_app (dom : browser) (l l' : list bubble) :
  typingComesFirst dom l = true -> typingComesFirst dom l' = true ->
  typingComesFirst dom (l ++ l')%list = true.
Proof.
  intros H H'. induction l as [|b l IH]; [exact H'|].
  destruct b; cbn [typingComesFirst List.app carries negb andb] in *;
    try reflexivity; try (now apply IH);
    apply andb_true_iff in H as [C H]; rewrite C; now apply IH.
Qed.

(** User bubbles are not touched by the lookup. *)
Lemma removeFirstTyping_users (dom : browser) (l : list bubble) :
  filter isUser (removeFirstTyping dom l) = filter isUser l.
Proof.
  induction l as [|b l IH]; [reflexivity|].
  destruct b; cbn [removeFirstTyping carries withoutTyping filter isUser];
    try reflexivity; try (now rewrite IH).
  - destruct (replyCarriesId dom html); cbn [List.app filter isUser];
      [reflexivity | exact IH].
  - destruct (childCarriesId dom html); cbn [filter isUser]; [|exact IH].
    now destruct (childWithoutId dom html).
Qed.



Lemma submitStart_sends (p : page) :
  String.eqb (trim (chatInput p)) "" = false ->
  submitStart p =
  (Page (chatMessages p ++
           [UserBubble (escapeHtml (trim (chatInput p))); TypingBubble])%list
        "" (requests p ++
              [PostChat (trim (chatInput p)) (trim (chatInput p))])%list
        (console p), true).
Proof.
  intros H. unfold submitStart. rewrite H.
  unfold fetch, insertBubble, setInput. cbn [chatMessages chatInput requests console].
  now rewrite <- List.app_assoc.
Qed.




(** ** Clear history *)

(** C5. The panel is reset to the single default message exactly when the
    clear request succeeds; when it fails, by rejection or with a status
    outside 2xx, the bubbles stay as they were and one error goes to the
    console. *)
Theorem clear_resets_panel_only_on_success (r : settled) (p : page) :
  (failed r = false ->
   chatMessages (clearSettle r p) = [ClearedBubble] /\
   console (clearSettle r p) = console p) /\
  (failed r = true ->
   chatMessages (clearSettle r p) = chatMessages p /\
   exists label detail,
     console (clearSettle r p) = (console p ++ [ConsoleError label detail])%list) /\
  (chatMessages (clearSettle r p) = [ClearedBubble] /\
   chatMessages p <> [ClearedBubble] -> failed r = false).
Proof.
  destruct r as [reason|res]; simpl; [|destruct (ok res); simpl];
    repeat split; try discriminate; eauto;
    intros [E N]; now elim N.
Qed.

Lemma clear_resets_panel_only_on_success_witness :
  chatMessages
    (clearSettle (Resolved (Response 200 "" None))
                 (Page [StaticBubble "Hello"; UserBubble "hi"] "" [] [])) =
    [ClearedBubble] /\
  chatMessages
    (clearSettle (Resolved (Response 503 "" None))
                 (Page [StaticBubble "Hello"; UserBubble "hi"] "" [] [])) =
    [StaticBubble "Hello"; UserBubble "hi"] /\
  chatMessages
    (clearSettle (Rejected "offline")
                 (Page [StaticBubble "Hello"; UserBubble "hi"] "" [] [])) =
    [StaticBubble "Hello"; UserBubble "hi"].
Proof.
  split; [|split].
  - apply (clear_resets_panel_only_on_success
             (Resolved (Response 200 "" None))
             (Page [StaticBubble "Hello"; UserBubble "hi"] "" [] [])).
    reflexivity.
  - apply (clear_resets_panel_only_on_success
             (Resolved (Response 503 "" None))
             (Page [StaticBubble "Hello"; UserBubble "hi"] "" [] [])).
    reflexivity.
  - apply (clear_resets_panel_only_on_success (Rejected "offline")
             (Page [StaticBubble "Hello"; UserBubble "hi"] "" [] [])).
    reflexivity.
Defined.

(** ** History replay *)

Lemma replayTurn_messages (dom : browser) (marked_parse : string -> string)
    (p : page) (t : turn) :
  chatMessages (replayTurn dom marked_parse p t) =
  (chatMessages p ++ shownAs dom marked_parse t)%list.
Proof.
  unfold replayTurn, shownAs, render.
  destruct (String.eqb (role t) "human"); [reflexivity|].
  destruct (String.eqb (role t) "ai"); [|now rewrite List.app_nil_r].
  cbv zeta.
  destruct (restoreMathSegments
              (marked_parse (replaced (extractMathSegments (trim (content t)))))
              (math (extractMathSegments (trim (content t))))); simpl;
    [now rewrite List.app_nil_r | reflexivity].
Qed.

Lemma replay_messages (dom : browser) (marked_parse : string -> string)
    (h : list turn) (p : page) :
  chatMessages (fold_left (replayTurn dom marked_parse) h p) =
  (chatMessages p ++ flat_map (shownAs dom marked_parse) h)%list.
Proof.
  revert p. induction h as [|t h IH]; intros p; simpl.
  - now rewrite List.app_nil_r.
  - now rewrite IH, replayTurn_messages, <- List.app_assoc.
Qed.

(** C4. On load, when the history request fails or brings no entries the
    bubbles on the page stay; when it brings entries the list is emptied
    and the turns are shown in the order received, a human turn as a user
    bubble of its escaped text, an assistant turn as the assistant
    template around the restorer's output for the Markdown rendering of
    the extractor's text, or as nothing when that output is empty.  So a
    human turn followed by an assistant turn that renders to nothing
    leaves one bubble. *)
Theorem history_replay_shows_turns_in_order
    (dom : browser) (marked_parse : string -> string)
    (r : historySettled) (p : page) :
  chatMessages (loadSettle dom marked_parse r p) =
    match entries r with
    | [] => chatMessages p
    | h => flat_map (shownAs dom marked_parse) h
    end /\
  forall st u a,
    okStatus st = true ->
    restoreMathSegments
      (marked_parse (replaced (extractMathSegments (trim a))))
      (math (extractMathSegments (trim a))) = "" ->
    chatMessages
      (loadSettle dom marked_parse
         (HistoryResolved st (Some (Some [Turn "human" u; Turn "ai" a]))) p) =
    [UserBubble (escapeHtml u)].
Proof.
  split.
  - destruct r as [reason|st [[h|]|]]; cbn [loadSettle entries];
      try reflexivity; destruct (okStatus st); cbn [negb]; try reflexivity.
    destruct h as [|t h]; [reflexivity|].
    now rewrite replay_messages.
  - intros st u a Ok E. cbn [loadSettle]. rewrite Ok. cbn [negb].
    rewrite replay_messages. cbn [flat_map]. unfold shownAs.
    cbn [role content]. rewrite E. reflexivity.
Qed.

Lemma history_replay_shows_turns_in_order_witness :
  chatMessages
    (loadSettle tidy (fun s => s)
       (HistoryResolved 200 (Some (Some [Turn "human" "1 < 2"; Turn "ai" "  "])))
       (Page [StaticBubble "Hello"] "" [] [])) =
  [UserBubble (escapeHtml "1 < 2")].
Proof.
  apply (history_replay_shows_turns_in_order tidy (fun s => s)
           (HistoryResolved 200
              (Some (Some [Turn "human" "1 < 2"; Turn "ai" "  "])))
           (Page [StaticBubble "Hello"] "" [] []));
    reflexivity.
Defined.

(** ** The reply of a successful response *)

Lemma replyRaw_firstString (data : json) :
  data <> JNull -> replyRaw data = Some (firstStringReply data).
Proof.
  intros N. unfold replyRaw, firstStringReply, stringField.
  destruct data; try reflexivity; [now elim N|].
  destruct (member (JObj fields) "output") as [[]|];
    destruct (member (JObj fields) "reply") as [[]|]; reflexivity.
Qed.

(** What a successful response with a body puts on the page. *)
Lemma submitSettle_reply (dom : browser) (marked_parse : string -> string)
    (res : response) (data : json) (raw : string) (p : page) :
  ok res = true -> body res = Some data -> replyRaw data = Some raw ->
  chatMessages (submitSettle dom marked_parse (Resolved res) p) =
    (removeFirstTyping dom (chatMessages p) ++
     match trim raw with
     | EmptyString => []
     | replyText => assistantChildren dom (render marked_parse replyText)
     end)%list.
Proof.
  intros Ok B R. unfold submitSettle, submitTry. rewrite Ok, B, R.
  cbn [negb]. destruct (trim raw); cbn [String.eqb].
  - cbn. now rewrite List.app_nil_r.
  - reflexivity.
Qed.

(** C2, as amended.  For every successful response whose body is not
    [null] the code has a reply: the value under [output] when that is a
    string, empty or not; else the value under [reply] when that is a
    string; else the serialized body.  The reply is trimmed.  When nothing
    is left, nothing is inserted.  Otherwise the trimmed reply goes through
    the extractor, the Markdown renderer and the restorer, and the
    assistant template around the result is inserted after the lookup by
    id has removed its element; that is one assistant bubble when the
    result keeps inside the template.  The three bodies of the example
    give the replies [hello], [hi] and the text of the empty object. *)
Theorem reply_is_first_string_field
    (dom : browser) (marked_parse : string -> string)
    (res : response) (data : json) (p : page) :
  ok res = true -> body res = Some data -> data <> JNull ->
  (exists raw,
     replyRaw data = Some raw /\
     (forall s, member data "output" = Some (JStr s) -> raw = s) /\
     (forall s, stringField data "output" = None ->
                member data "reply" = Some (JStr s) -> raw = s) /\
     (stringField data "output" = None -> stringField data "reply" = None ->
      raw = stringify data) /\
     chatMessages (submitSettle dom marked_parse (Resolved res) p) =
       (removeFirstTyping dom (chatMessages p) ++
        match trim raw with
        | EmptyString => []
        | replyText =>
            let e := extractMathSegments replyText in
            let html := restoreMathSegments (marked_parse (replaced e)) (math e) in
            AssistantBubble html :: map StaticBubble (spill dom html)
        end)%list /\
     (trim raw <> "" -> typingComesFirst dom (chatMessages p) = true ->
      let e := extractMathSegments (trim raw) in
      let html := restoreMathSegments (marked_parse (replaced e)) (math e) in
      staysInside dom html = true ->
      chatMessages (submitSettle dom marked_parse (Resolved res) p) =
        (withoutFirstTyping (chatMessages p) ++ [AssistantBubble html])%list)) /\
  replyRaw (JObj [("output", JStr "hello")]) = Some "hello" /\
  replyRaw (JObj [("reply", JStr "hi")]) = Some "hi" /\
  replyRaw (JObj []) = Some "{}".
Proof.
  intros Ok B N. split; [|now repeat split].
  exists (firstStringReply data).
  assert (R := replyRaw_firstString data N).
  assert (M := submitSettle_reply dom marked_parse res data _ p Ok B R).
  split; [exact R|].
  split; [intros s O; unfold firstStringReply, stringField; now rewrite O|].
  split; [intros s O Rp; unfold firstStringReply; rewrite O;
          unfold stringField; now rewrite Rp|].
  split; [intros O Rp; unfold firstStringReply; now rewrite O, Rp|].
  split; [exact M|].
  intros Ne F e html In. rewrite M, (removeFirstTyping_first _ _ F).
  f_equal. destruct (trim (firstStringReply data)) eqn:T; [now elim Ne|].
  unfold assistantChildren, render. fold e. fold html.
  unfold staysInside in In. now destruct (spill dom html).
Qed.

Lemma reply_is_first_string_field_witness :
  replyRaw (JObj [("output", JStr "hello")]) = Some "hello" /\
  chatMessages
    (submitSettle tidy (fun s => "<p>" ++ s ++ "</p>")
       (Resolved (Response 200 "" (Some (JObj [("output", JStr "hello")]))))
       (Page [StaticBubble "Hello"; UserBubble "hey"; TypingBubble] "" [] [])) =
  [StaticBubble "Hello"; UserBubble "hey"; AssistantBubble "<p>hello</p>"].
Proof.
  destruct (reply_is_first_string_field tidy (fun s => "<p>" ++ s ++ "</p>")
              (Response 200 "" (Some (JObj [("output", JStr "hello")])))
              (JObj [("output", JStr "hello")])
              (Page [StaticBubble "Hello"; UserBubble "hey"; TypingBubble]
                    "" [] []))
    as ((raw & R & O & _ & _ & _ & M) & _);
    [reflexivity | reflexivity | discriminate |].
  rewrite (O "hello" eq_refl) in R, M.
  split; [exact R | apply M; [discriminate | reflexivity | reflexivity]].
Defined.

(** C2, as stated, fails.  With an empty [output] next to a [reply] the
    first non-empty of the two keys is the reply, but the code picks the
    empty [output] and then shows no bubble at all; and on the body [null]
    reading the key throws, so the error bubble is shown and not the
    serialized body. *)
Lemma reply_is_not_first_non_empty :
  (firstNonEmptyReply (JObj [("output", JStr ""); ("reply", JStr "hi")]) = "hi" /\
   replyRaw (JObj [("output", JStr ""); ("reply", JStr "hi")]) = Some "" /\
   replyRaw (JObj [("output", JStr ""); ("reply", JStr "hi")]) <>
   Some (firstNonEmptyReply (JObj [("output", JStr ""); ("reply", JStr "hi")])) /\
   chatMessages
     (submitSettle tidy (fun s => s)
        (Resolved (Response 200 ""
           (Some (JObj [("output", JStr ""); ("reply", JStr "hi")]))))
        (Page [TypingBubble] "" [] [])) = []) /\
  (firstNonEmptyReply JNull = "null" /\
   replyRaw JNull <> Some (firstNonEmptyReply JNull) /\
   chatMessages
     (submitSettle tidy (fun s => s) (Resolved (Response 200 "" (Some JNull)))
        (Page [TypingBubble] "" [] [])) =
   [ErrorBubble]).
Proof. repeat split; discriminate. Qed.

(** * Further properties of the code *)

(** ** Extractor and restorer *)

Lemma append_empty_r (s : string) : s ++ "" = s.
Proof. induction s as [|c s IH]; simpl; [reflexivity | now rewrite IH]. Qed.

Lemma opener_patterns (re : regex) (c : ascii) (t : string) :
  In re patterns -> opener c = false -> matchAt re (String c t) = None.
Proof.
  unfold opener, oneOf. simpl. rewrite !orb_false_r.
  intros I H. apply orb_false_iff in H as [H1 H2].
  rewrite Ascii.eqb_sym in H1, H2.
  destruct I as [<-|[<-|[<-|[<-|[]]]]];
    apply matchAt_head_reject; (discriminate || assumption).
Qed.

(** A pass over a text in which no character opens a match copies it. *)
Lemma replace_plain (re : regex) (s : string) (table : list string) :
  In re patterns -> allIn (fun c => negb (opener c)) s = true ->
  replace re protect s table = (s, table).
Proof.
  intros I H.
  assert (E : matchAt re "" = None) by apply (fenced_patterns re I).
  rewrite <- (append_empty_r s) at 1. rewrite replace_through.
  - rewrite (replace_end _ _ _ E). cbn [fst snd]. now rewrite append_empty_r.
  - intros c t Ic. apply (opener_patterns re c t I).
    apply negb_true_iff. exact (allIn_In _ _ _ H Ic).
Qed.

(** X1.  A reply with no dollar sign and no backslash goes through the
    extractor as it is, with an empty table. *)
Theorem extract_without_delimiter (T : string) :
  allIn (fun c => negb (opener c)) T = true ->
  extractMathSegments T = Extraction T [].
Proof.
  intros H. rewrite extract_passes. cbv zeta.
  rewrite (replace_plain re_display) by (simpl; tauto || exact H).
  cbn [fst snd].
  rewrite (replace_plain re_bracket) by (simpl; tauto || exact H).
  cbn [fst snd].
  rewrite (replace_plain re_inline) by (simpl; tauto || exact H).
  cbn [fst snd].
  now rewrite (replace_plain re_paren) by (simpl; tauto || exact H).
Qed.

Lemma extract_without_delimiter_witness :
  extractMathSegments "Total: 5 euro (incl. VAT)" =
  Extraction "Total: 5 euro (incl. VAT)" [].
Proof.
  apply (extract_without_delimiter "Total: 5 euro (incl. VAT)").
  reflexivity.
Defined.

Lemma lastChar_append (s : string) (c : ascii) :
  lastChar (s ++ String c "") = Some c.
Proof.
  induction s as [|a s IH]; [reflexivity|].
  cbn [append lastChar]. rewrite IH. now destruct (s ++ String c "").
Qed.

Lemma matchAt_last_lit (r : regex) (b : ascii) (s : string) (f : found) :
  matchAt (r ++ [lit b])%list s = Some f -> lastChar (matched f) = Some b.
Proof.
  intros M. apply matchAt_last in M as (m & c & -> & A); [|reflexivity].
  cbn [accepts lit] in A. apply Ascii.eqb_eq in A as <-.
  apply lastChar_append.
Qed.

(** What a pass stores are matches of its pattern: they open with a dollar
    sign or a backslash and close with a dollar sign, a bracket or a
    parenthesis. *)
Lemma Pass_shapes (re : regex) (n : nat) (s out : string) (ms : list string) :
  In re patterns -> Pass re n s out ms ->
  Forall (fun m => passes opener (firstChar m) = true /\
                   passes closer (lastChar m) = true) ms.
Proof.
  intros I P. induction P as [n|n c s out ms M P IH|n f rest out ms M Ne P IH].
  - constructor.
  - exact IH.
  - constructor; [|exact IH]. split.
    + destruct (matched f) as [|c m] eqn:E; [now elim Ne|].
      cbn [firstChar passes].
      destruct (opener c) eqn:O; [reflexivity|].
      cbn [append] in M. now rewrite (opener_patterns re c _ I O) in M.
    + destruct I as [<-|[<-|[<-|[<-|[]]]]].
      * apply (matchAt_last_lit
                 [lit dollar; lit dollar; Atom anyChar LazyStar false;
                  lit dollar] dollar) in M. now rewrite M.
      * apply (matchAt_last_lit
                 [lit backslash; lit "["; Atom anyChar LazyStar false;
                  lit backslash] "]") in M. now rewrite M.
      * apply (matchAt_last_lit
                 [lit dollar; Atom (noneOf [dollar; newline]) GreedyPlus false]
                 dollar) in M. now rewrite M.
      * apply (matchAt_last_lit
                 [lit backslash; lit "("; Atom (noneOf [backslash]) LazyStar false;
                  lit backslash] ")") in M. now rewrite M.
Qed.

(** X2.  Every segment the extractor stores, for any reply, opens with a dollar
    sign or a backslash and closes with a dollar sign, a closing bracket or
    a closing parenthesis; so none is empty, and the restorer's fallback to
    the empty text is never taken for an index inside the table. *)
Theorem stored_segments_are_delimited (T : string) :
  Forall (fun m => passes opener (firstChar m) = true /\
                   passes closer (lastChar m) = true /\
                   m <> "")
         (math (extractMathSegments T)) /\
  forall i, i < List.length (math (extractMathSegments T)) ->
    exists m, m <> "" /\
      orEmpty (element (math (extractMathSegments T)) (Some i)) = m /\
      nth_error (math (extractMathSegments T)) i = Some m.
Proof.
  assert (A : Forall (fun m => passes opener (firstChar m) = true /\
                               passes closer (lastChar m) = true)
                     (math (extractMathSegments T))).
  { rewrite extract_passes. cbv zeta. cbn [math].
    assert (P : forall re, In re patterns -> forall s table,
              Forall (fun m => passes opener (firstChar m) = true /\
                               passes closer (lastChar m) = true) table ->
              Forall (fun m => passes opener (firstChar m) = true /\
                               passes closer (lastChar m) = true)
                     (snd (replace re protect s table))).
    { intros re I s table Ft.
      destruct (pass_Pass re (String.length s) (fenced_patterns re I)
                  s table (le_n _)) as (ms & P & ->).
      apply Forall_app. split; [exact Ft|]. exact (Pass_shapes _ _ _ _ _ I P). }
    apply P; [simpl; tauto|]. apply P; [simpl; tauto|].
    apply P; [simpl; tauto|]. apply P; [simpl; tauto|]. constructor. }
  assert (B : Forall (fun m => passes opener (firstChar m) = true /\
                               passes closer (lastChar m) = true /\ m <> "")
                     (math (extractMathSegments T))).
  { eapply Forall_impl; [|exact A]. intros m [O C].
    repeat split; try assumption. intros ->. discriminate. }
  split; [exact B|]. intros i L.
  destruct (nth_error (math (extractMathSegments T)) i) as [m|] eqn:E.
  - rewrite Forall_forall in B.
    destruct (B m (nth_error_In _ _ E)) as (_ & _ & Ne).
    exists m. cbn [element]. rewrite E. cbn [orEmpty].
    repeat split; try assumption.
    destruct (String.eqb_spec m ""); [contradiction | reflexivity].
  - apply nth_error_None in E. lia.
Qed.

Lemma stored_segments_are_delimited_witness :
  exists m, m <> "" /\
    orEmpty (element (math (extractMathSegments "a $x$ b \(y\)")) (Some 1)) = m /\
    nth_error (math (extractMathSegments "a $x$ b \(y\)")) 1 = Some m.
Proof.
  apply (stored_segments_are_delimited "a $x$ b \(y\)").
  vm_compute. lia.
Defined.

Lemma restore_token_free (html : string) (table : list string) :
  hasToken html = false -> restoreMathSegments html table = html.
Proof.
  induction html as [|c s IH]; [reflexivity|].
  cbn [hasToken]. destruct (tokenAt (String c s)) eqn:T; [discriminate|].
  intros H. now rewrite (restore_other _ _ _ T), IH.
Qed.

Lemma restore_empty_table_shrinks (n : nat) :
  forall html,
    String.length html <= n ->
    String.length (restoreMathSegments html []) <= String.length html /\
    (hasToken html = true ->
     String.length (restoreMathSegments html []) < String.length html).
Proof.
  induction n as [|n IH]; intros html L.
  - destruct html; [now split | simpl in L; lia].
  - destruct (tokenAt html) as [[ds rest]|] eqn:T.
    + apply tokenAt_sound in T as (-> & D & Ne).
      rewrite (restore_token _ _ _ D Ne).
      assert (E : segmentOf [] ds = "")
        by (unfold segmentOf; now destruct (decimal ds)).
      rewrite E. cbn [append].
      destruct (IH rest) as [K _].
      { simpl in L. rewrite !length_append in L. simpl in L. lia. }
      simpl String.length. rewrite !length_append. simpl String.length.
      split; [lia | intros _; lia].
    + destruct html as [|c s]; [now split|].
      rewrite (restore_other _ _ _ T). cbn [hasToken]. rewrite T.
      destruct (IH s) as [K1 K2]; [simpl in L; lia|].
      simpl String.length. split; [lia|]. intros H. apply K2 in H. lia.
Qed.

(** X4.  HTML without a placeholder token comes out of the restorer as it went
    in, whatever the table holds; and with an empty table only such HTML
    does, since every token is then taken out. *)
Theorem restore_leaves_token_free_html (html : string) :
  hasToken html = false <->
  forall table, restoreMathSegments html table = html.
Proof.
  split.
  - intros H table. now apply restore_token_free.
  - intros H. destruct (hasToken html) eqn:T; [|reflexivity].
    destruct (restore_empty_table_shrinks _ html (le_n _)) as [_ K].
    specialize (K T). rewrite (H []) in K. lia.
Qed.

(** X5.  The placeholder of an index is read back as that index: a text that
    starts with the placeholder of [k] starts with the placeholder of no
    other index, the restorer puts entry [k] of the table in its place, and
    goes on with what follows. *)
Theorem placeholder_reads_back_its_index (k j : nat) (s t : string) (table : list string) :
  placeholder k ++ s = placeholder j ++ t ->
  k = j /\ s = t /\
  restoreMathSegments (placeholder k ++ s) table =
  nth j table "" ++ restoreMathSegments t table.
Proof.
  intros E. pose proof (tokenAt_placeholder k s) as Tk.
  rewrite E, tokenAt_placeholder in Tk. injection Tk as D <-.
  assert (K : k = j)
    by (rewrite <- (decimal_toString k), <- (decimal_toString j); now rewrite D).
  subst j. repeat split. apply restore_placeholder.
Qed.

Lemma placeholder_reads_back_its_index_witness :
  12 = 12 /\ " and more" = " and more" /\
  restoreMathSegments (placeholder 12 ++ " and more") ["a"; "b"] =
  nth 12 ["a"; "b"] "" ++ restoreMathSegments " and more" ["a"; "b"].
Proof.
  apply (placeholder_reads_back_its_index 12 12 " and more" " and more").
  reflexivity.
Defined.

(** X6.  For a reply with no dollar sign and no backslash, the pipeline of
    extractor, Markdown and restorer is the Markdown renderer alone, as
    long as the renderer puts no placeholder token in its output. *)
Theorem render_without_math_is_markdown
    (marked_parse : string -> string) (reply : string) :
  allIn (fun c => negb (opener c)) reply = true ->
  hasToken (marked_parse reply) = false ->
  render marked_parse reply = marked_parse reply.
Proof.
  intros P H. unfold render. rewrite extract_passes. cbv zeta.
  rewrite (replace_plain re_display) by (simpl; tauto || exact P).
  cbn [fst snd].
  rewrite (replace_plain re_bracket) by (simpl; tauto || exact P).
  cbn [fst snd].
  rewrite (replace_plain re_inline) by (simpl; tauto || exact P).
  cbn [fst snd].
  rewrite (replace_plain re_paren) by (simpl; tauto || exact P).
  cbn [fst snd replaced math]. now apply restore_token_free.
Qed.

Lemma render_without_math_is_markdown_witness :
  render (fun s => "<p>" ++ s ++ "</p>") "Hello, world" = "<p>Hello, world</p>".
Proof.
  apply (render_without_math_is_markdown (fun s => "<p>" ++ s ++ "</p>")
           "Hello, world"); reflexivity.
Defined.

Lemma lastChar_cons (a : ascii) (s : string) :
  s <> "" -> lastChar (String a s) = lastChar s.
Proof. destruct s; [now intros H; elim H | reflexivity]. Qed.

Lemma lastChar_append_r (p u : string) :
  u <> "" -> lastChar (p ++ u) = lastChar u.
Proof.
  intros Ne. induction p as [|a p IH]; [reflexivity|].
  cbn [append]. rewrite lastChar_cons; [exact IH|]. now destruct p, u.
Qed.

Lemma lastChar_allIn (test : ascii -> bool) (s : string) :
  allIn test s = true -> s <> "" -> passes test (lastChar s) = true.
Proof.
  induction s as [|a s IH]; intros A Ne; [now elim Ne|].
  simpl in A. apply andb_true_iff in A as [Ha A].
  destruct s as [|b s]; [exact Ha|].
  rewrite lastChar_cons by discriminate. apply IH; [exact A | discriminate].
Qed.

(** In a text between two passes, what follows a match is again such a
    text, whether or not the match spans placeholders. *)
Lemma tokenised_after_match (n k : nat) :
  forall m rest,
    String.length m <= k ->
    tokenised n (m ++ rest) ->
    (m = "" \/ passes (fun c => negb (tokenChar c)) (lastChar m) = true) ->
    tokenised n rest.
Proof.
  induction k as [|k IH]; intros m rest L T E.
  - destruct m; [exact T | simpl in L; lia].
  - destruct m as [|a m]; [exact T|].
    destruct E as [E|E]; [discriminate|].
    remember (String a m ++ rest) as w eqn:W.
    destruct T as [|c s S T|j s J T].
    + discriminate.
    + cbn [append] in W. injection W as -> ->.
      apply (IH m rest); [simpl in L; lia | exact T |].
      destruct m as [|b m]; [now left | right].
      now rewrite lastChar_cons in E by discriminate.
    + symmetry in W.
      apply append_eq_append in W as [(u & Eu & ->)|(c & v & Ep & _)].
      * destruct (placeholder_cons j) as [t Et].
        apply (IH u rest); [| exact T |].
        { rewrite Eu, Et, length_append in L. simpl in L. lia. }
        destruct u as [|b u]; [now left | right].
        rewrite Eu, lastChar_append_r in E by discriminate. exact E.
      * exfalso. pose proof (placeholder_chars j) as A.
        rewrite Ep, allIn_append in A. apply andb_true_iff in A as [A _].
        apply lastChar_allIn in A; [|discriminate].
        destruct (lastChar (String a m)); simpl in *; [|discriminate].
        rewrite A in E. discriminate.
Qed.

Lemma pass_tokenised (re : regex) (n : nat) :
  fenced re ->
  forall s table,
    String.length s <= n ->
    tokenised (List.length table) s ->
    tokenised (List.length (snd (replace re protect s table)))
              (fst (replace re protect s table)).
Proof.
  intros F. induction n as [|n IH]; intros s table L T.
  - destruct s; [|simpl in L; lia].
    rewrite replace_end by apply F. constructor.
  - destruct T as [|c s S T|k s K T].
    + rewrite replace_end by apply F. constructor.
    + destruct (matchAt re (String c s)) as [f|] eqn:M.
      * destruct (matchAt_prefix _ _ _ M) as [rest W].
        assert (T0 : tokenised (List.length table) (matched f ++ rest))
          by (rewrite <- W; now constructor).
        rewrite W in *. clear W S T.
        pose proof (fenced_nonempty _ _ _ F M) as Ne.
        rewrite (replace_hit _ _ _ _ _ M Ne), protect_eq. cbn [fst snd].
        destruct (replace_extends re F rest (table ++ [matched f])%list)
          as [ms E].
        assert (T1 : tokenised (List.length table) rest).
        { apply (tokenised_after_match _ _ _ _ (le_n _) T0). right.
          destruct F as (_ & _ & C). destruct (C _ _ M) as (m0 & c0 & -> & K).
          rewrite lastChar_append. cbn. now rewrite K. }
        apply tokenised_token.
        -- rewrite E, !List.length_app. simpl. lia.
        -- apply IH.
           ++ rewrite length_append in L.
              destruct (matched f); [now elim Ne | simpl in L; lia].
           ++ apply (tokenised_weaken (List.length table)); [|exact T1].
              rewrite List.length_app. lia.
      * rewrite (replace_keep _ _ _ _ _ M). cbn [fst snd].
        apply tokenised_char; [now apply strip_pass|].
        apply IH; [simpl in L; lia | exact T].
    + pose proof (placeholder_chars k) as C.
      assert (Th : forall c t, In c (list_ascii_of_string (placeholder k)) ->
                   matchAt re (String c t) = None).
      { intros c t I. destruct F as (O & _). apply O.
        exact (allIn_In _ _ _ C I). }
      rewrite (replace_through _ _ _ _ _ Th). cbn [fst snd].
      destruct (replace_extends re F s table) as [ms E].
      apply tokenised_token.
      * rewrite E, List.length_app. lia.
      * apply IH; [|exact T]. rewrite length_append in L.
        destruct (placeholder_cons k) as [t Et]. rewrite Et in L.
        simpl in L. lia.
Qed.

(** X3.  For a reply that does not contain the six characters [@@MATH], the
    text the extractor returns is made of characters of the reply and of
    placeholders whose index is inside the table it returns: the restorer
    finds an entry for each of them. *)
Theorem extracted_placeholders_are_in_range (T : string) :
  occurs "@@MATH" T = false ->
  tokenised (List.length (math (extractMathSegments T)))
            (replaced (extractMathSegments T)).
Proof.
  intros O. rewrite extract_passes. cbv zeta. cbn [replaced math].
  assert (P : forall re, In re patterns -> forall s table,
            tokenised (List.length table) s ->
            tokenised (List.length (snd (replace re protect s table)))
                      (fst (replace re protect s table))).
  { intros re I s table.
    exact (pass_tokenised re _ (fenced_patterns re I) s table (le_n _)). }
  apply P; [simpl; tauto|]. apply P; [simpl; tauto|].
  apply P; [simpl; tauto|]. apply P; [simpl; tauto|].
  now apply occurs_tokenised.
Qed.

Lemma extracted_placeholders_are_in_range_witness :
  tokenised
    (List.length (math (extractMathSegments "Pay $5 for $$x$$ or $6")))
    (replaced (extractMathSegments "Pay $5 for $$x$$ or $6")).
Proof.
  apply (extracted_placeholders_are_in_range "Pay $5 for $$x$$ or $6").
  reflexivity.
Defined.

(** ** escapeHtml *)

(** X7.  Escaping goes piece by piece: the escape of two texts put together is
    the two escapes put together. *)
Theorem escapeHtml_distributes_over_append (s t : string) :
  escapeHtml (s ++ t) = escapeHtml s ++ escapeHtml t.
Proof.
  induction s as [|c s IH]; [reflexivity|].
  cbn [append]. now rewrite !escapeHtml_cons, IH, append_assoc.
Qed.

Lemma entity_length (c : ascii) :
  (special c = true /\ 4 <= String.length (entity c) <= 6) \/
  (special c = false /\ entity c = String c "").
Proof.
  destruct (special c) eqn:Sp.
  - left. split; [reflexivity|].
    destruct (special_cases c Sp) as [-> | [-> | [-> | [-> | ->]]]];
      simpl; lia.
  - right. split; [reflexivity | now apply entity_plain].
Qed.

Lemma escapeHtml_length (s : string) :
  String.length s <= String.length (escapeHtml s) <= 6 * String.length s.
Proof.
  induction s as [|c s IH]; [simpl; lia|].
  rewrite escapeHtml_cons, length_append.
  destruct (entity_length c) as [[_ L]|[_ ->]]; simpl String.length; lia.
Qed.

Lemma escapeHtml_same_length (s : string) :
  String.length (escapeHtml s) = String.length s ->
  allIn (fun c => negb (special c)) s = true.
Proof.
  induction s as [|c s IH]; [reflexivity|].
  rewrite escapeHtml_cons, length_append.
  pose proof (escapeHtml_length s) as B.
  destruct (entity_length c) as [[_ L]|[Sp ->]]; simpl String.length; intros E.
  - lia.
  - simpl. rewrite Sp. apply IH. lia.
Qed.

Lemma escapeHtml_plain (t : string) :
  allIn (fun c => negb (special c)) t = true -> escapeHtml t = t.
Proof.
  induction t as [|c t IH]; [reflexivity|]. simpl.
  intros H. apply andb_true_iff in H as [Sp H].
  apply negb_true_iff in Sp.
  now rewrite escapeHtml_cons, (entity_plain _ Sp), (IH H).
Qed.

(** An escape with no special character in it comes from a text with
    none: every entity starts with an ampersand. *)
Lemma escapeHtml_plain_source (s : string) :
  allIn (fun c => negb (special c)) (escapeHtml s) = true ->
  allIn (fun c => negb (special c)) s = true.
Proof.
  induction s as [|c s IH]; [reflexivity|].
  rewrite escapeHtml_cons, allIn_append. intros H.
  apply andb_true_iff in H as [He H]. simpl. rewrite (IH H), andb_true_r.
  destruct (special c) eqn:Sp; [|reflexivity].
  destruct (special_cases c Sp) as [-> | [-> | [-> | [-> | ->]]]];
    discriminate He.
Qed.

(** X8.  The escape of a text is never shorter than the text and at most six
    times as long; it is the text itself exactly when the text has none of
    the five special characters, so escaping a second time changes every
    text that the first time changed. *)
Theorem escapeHtml_grows_unless_plain (s : string) :
  String.length s <= String.length (escapeHtml s) <= 6 * String.length s /\
  (escapeHtml s = s <-> allIn (fun c => negb (special c)) s = true) /\
  (escapeHtml (escapeHtml s) = escapeHtml s <-> escapeHtml s = s).
Proof.
  assert (Q : forall t, escapeHtml t = t ->
                        allIn (fun c => negb (special c)) t = true).
  { intros t E. apply escapeHtml_same_length. now rewrite E. }
  split; [apply escapeHtml_length|].
  split; [split; [apply Q | apply escapeHtml_plain]|].
  split.
  - intros E. apply escapeHtml_plain, escapeHtml_plain_source, Q, E.
  - intros E. now rewrite !E.
Qed.

Lemma entity_inj (c1 c2 : ascii) (r1 r2 : string) :
  entity c1 ++ r1 = entity c2 ++ r2 -> c1 = c2 /\ r1 = r2.
Proof.
  destruct (special c1) eqn:S1, (special c2) eqn:S2.
  - destruct (special_cases c1 S1) as [-> | [-> | [-> | [-> | ->]]]];
      destruct (special_cases c2 S2) as [-> | [-> | [-> | [-> | ->]]]];
      cbn; intros E; (discriminate E || (injection E as ->; now split)).
  - rewrite (entity_plain _ S2).
    destruct (special_cases c1 S1) as [-> | [-> | [-> | [-> | ->]]]];
      cbn; intros E; injection E as <- _; discriminate S2.
  - rewrite (entity_plain _ S1).
    destruct (special_cases c2 S2) as [-> | [-> | [-> | [-> | ->]]]];
      cbn; intros E; injection E as -> _; discriminate S1.
  - rewrite (entity_plain _ S1), (entity_plain _ S2). cbn.
    intros E. injection E as -> ->. now split.
Qed.

(** X9.  Escaping loses nothing: two texts with the same escape are the same
    text. *)
Theorem escapeHtml_injective (s t : string) :
  escapeHtml s = escapeHtml t -> s = t.
Proof.
  revert t. induction s as [|c s IH]; intros [|d t] E.
  - reflexivity.
  - rewrite escapeHtml_cons in E. change (escapeHtml "") with "" in E.
    destruct (entity_length d) as [[_ L]|[_ K]]; [|rewrite K in E; discriminate].
    destruct (entity d); [simpl in L; lia | discriminate].
  - rewrite escapeHtml_cons in E. change (escapeHtml "") with "" in E.
    destruct (entity_length c) as [[_ L]|[_ K]]; [|rewrite K in E; discriminate].
    destruct (entity c); [simpl in L; lia | discriminate].
  - rewrite !escapeHtml_cons in E. apply entity_inj in E as [-> E].
    now rewrite (IH _ E).
Qed.

Lemma escapeHtml_injective_witness : "a<b" = "a<b".
Proof. apply (escapeHtml_injective "a<b" "a<b"). reflexivity. Defined.

(** ** Chat submission *)

Lemma trimEnd_head (c : ascii) (s : string) :
  isSpace c = false -> exists t, trimEnd (String c s) = String c t.
Proof.
  intros H. cbn [trimEnd]. destruct (trimEnd s); [|eauto].
  rewrite H. eauto.
Qed.

Lemma trimStart_cases (s : string) :
  (trimStart s = "" /\ allIn isSpace s = true) \/
  (exists c t, trimStart s = String c t /\ isSpace c = false /\
               allIn isSpace s = false).
Proof.
  induction s as [|c s IH]; [now left|].
  simpl. destruct (isSpace c) eqn:Sp; [exact IH|].
  right. now exists c, s.
Qed.

Lemma trimEnd_last (s : string) :
  trimEnd s = "" \/ passes (fun c => negb (isSpace c)) (lastChar (trimEnd s)) = true.
Proof.
  induction s as [|c s IH]; [now left|].
  cbn [trimEnd]. destruct (trimEnd s) as [|d t] eqn:E.
  - destruct (isSpace c) eqn:Sp; [now left|]. right. simpl. now rewrite Sp.
  - right. destruct IH as [IH|IH]; [discriminate|].
    now rewrite lastChar_cons by discriminate.
Qed.

(** What [trim] leaves: nothing exactly when the text is white space only;
    otherwise a text that starts and ends with a character that is not
    white space. *)
Lemma trim_edges (s : string) :
  (trim s = "" /\ allIn isSpace s = true) \/
  (allIn isSpace s = false /\
   passes (fun c => negb (isSpace c)) (firstChar (trim s)) = true /\
   passes (fun c => negb (isSpace c)) (lastChar (trim s)) = true).
Proof.
  unfold trim. destruct (trimStart_cases s) as [[E A]|(c & t & E & Sp & A)].
  - left. now rewrite E.
  - right. rewrite E. split; [exact A|].
    destruct (trimEnd_head c t Sp) as [t' E']. split.
    + rewrite E'. simpl. now rewrite Sp.
    + destruct (trimEnd_last (String c t)) as [K|K]; [|exact K].
      rewrite E' in K. discriminate.
Qed.

(** X10.  A submission goes out exactly when the input has a character that is
    not white space.  Then the input is emptied, the list gains the user
    bubble and the typing bubble, and one request is issued that carries,
    under both keys, the input without the white space around it: a text
    that is not empty and neither starts nor ends with white space. *)
Theorem submission_sends_trimmed_input (p : page) :
  (snd (submitStart p) = true <-> allIn isSpace (chatInput p) = false) /\
  (snd (submitStart p) = true ->
   fst (submitStart p) =
     Page (chatMessages p ++
             [UserBubble (escapeHtml (trim (chatInput p))); TypingBubble])%list
          ""
          (requests p ++
             [PostChat (trim (chatInput p)) (trim (chatInput p))])%list
          (console p) /\
   passes (fun c => negb (isSpace c)) (firstChar (trim (chatInput p))) = true /\
   passes (fun c => negb (isSpace c)) (lastChar (trim (chatInput p))) = true).
Proof.
  destruct (trim_edges (chatInput p)) as [[E A]|(A & Fc & Lc)].
  - assert (S : submitStart p = (p, false))
      by (unfold submitStart; now rewrite E).
    rewrite S, A. cbn [snd]. split; [split|]; discriminate.
  - assert (Ne : String.eqb (trim (chatInput p)) "" = false).
    { destruct (trim (chatInput p)); [discriminate Fc | reflexivity]. }
    rewrite (submitStart_sends _ Ne), A. cbn [fst snd].
    split; [split; reflexivity|]. intros _. now repeat split.
Qed.

Lemma submission_sends_trimmed_input_witness :
  fst (submitStart (Page [StaticBubble "Hello"] "  what is $x$?  " [] [])) =
    Page [StaticBubble "Hello"; UserBubble "what is $x$?"; TypingBubble] ""
         [PostChat "what is $x$?" "what is $x$?"] [] /\
  passes (fun c => negb (isSpace c)) (firstChar "what is $x$?") = true /\
  passes (fun c => negb (isSpace c)) (lastChar "what is $x$?") = true.
Proof.
  apply (submission_sends_trimmed_input
           (Page [StaticBubble "Hello"] "  what is $x$?  " [] [])).
  reflexivity.
Defined.

Lemma submitSettle_cases (dom : browser) (marked_parse : string -> string)
    (r : settled) (p : page) :
  (failed r || unreadable r = true /\
   exists err detail,
     submitSettle dom marked_parse r p =
     Page (removeFirstTyping dom (chatMessages p) ++ [ErrorBubble])%list
          (chatInput p) (requests p)
          (console p ++ detail ++
             [ConsoleError "Error talking to backend:" err])%list) \/
  (failed r || unreadable r = false /\
   exists extra warned,
     submitSettle dom marked_parse r p =
     Page (removeFirstTyping dom (chatMessages p) ++ extra)%list
          (chatInput p) (requests p) (console p ++ warned)%list /\
     (extra = [] \/ exists html, extra = assistantChildren dom html) /\
     (warned = [] \/ exists label, warned = [ConsoleWarn label])).
Proof.
  destruct r as [reason|res].
  - left. split; [reflexivity|]. exists reason, []. reflexivity.
  - unfold failed, unreadable, submitSettle, submitTry.
    destruct (ok res) eqn:Ok; cbn [negb andb orb].
    + destruct (body res) as [data|] eqn:B.
      * destruct (replyRaw data) as [raw|] eqn:Rw.
        -- right. split; [destruct data; (discriminate Rw || reflexivity)|].
           destruct (String.eqb (trim raw) "").
           ++ exists [], [ConsoleWarn "Empty reply from backend, skipping render:"].
              split; [|split; [now left | right; eauto]].
              unfold log, removeTyping, setMessages.
              cbn [chatMessages chatInput requests console].
              now rewrite List.app_nil_r.
           ++ exists (assistantChildren dom (render marked_parse (trim raw))), [].
              split; [|split; [right; eauto | now left]].
              unfold insertAssistant, removeTyping, setMessages.
              cbn [chatMessages chatInput requests console].
              now rewrite List.app_nil_r.
        -- left. split; [destruct data; (discriminate Rw || reflexivity)|].
           exists "TypeError", []. reflexivity.
      * left. split; [reflexivity|]. exists "SyntaxError", []. reflexivity.
    + left. split; [reflexivity|].
      exists ("Server error: " ++ toString (status res)),
             [ConsoleError "Server error body:" (text res)].
      unfold submitCatch, insertBubble, removeTyping, setMessages, log.
      cbn [chatMessages chatInput requests console].
      now rewrite <- List.app_assoc.
Qed.

(** What the assistant template adds holds no typing bubble and no user
    bubble. *)
Lemma assistantChildren_kinds (dom : browser) (html : string) :
  count isTyping (assistantChildren dom html) = 0 /\
  filter isUser (assistantChildren dom html) = [].
Proof.
  unfold assistantChildren, count. cbn [filter isTyping isUser].
  induction (spill dom html) as [|m l [T U]]; [now split|].
  cbn [map filter isTyping isUser]. now split.
Qed.

(** X11.  Whatever the request settles to (a reply, an empty reply, a
    failure, a body that does not parse), the handler removes the first
    element with the id of the typing bubble, leaves the user bubbles as
    they are, appends nothing, the error bubble or what the assistant
    template parses to, issues no request and leaves the input alone.
    When no child before the first typing bubble has that id in its
    markup, one typing bubble fewer is on the page. *)
Theorem settled_submission_frame
    (dom : browser) (marked_parse : string -> string) (r : settled) (p : page) :
  (exists extra,
     chatMessages (submitSettle dom marked_parse r p) =
       (removeFirstTyping dom (chatMessages p) ++ extra)%list /\
     (extra = [] \/ extra = [ErrorBubble] \/
      exists html, extra = assistantChildren dom html)) /\
  filter isUser (chatMessages (submitSettle dom marked_parse r p)) =
    filter isUser (chatMessages p) /\
  requests (submitSettle dom marked_parse r p) = requests p /\
  chatInput (submitSettle dom marked_parse r p) = chatInput p /\
  (typingComesFirst dom (chatMessages p) = true ->
   count isTyping (chatMessages (submitSettle dom marked_parse r p)) =
     pred (count isTyping (chatMessages p))).
Proof.
  assert (K : exists extra c,
            submitSettle dom marked_parse r p =
            Page (removeFirstTyping dom (chatMessages p) ++ extra)%list
                 (chatInput p) (requests p) c /\
            (extra = [] \/ extra = [ErrorBubble] \/
             exists html, extra = assistantChildren dom html)).
  { destruct (submitSettle_cases dom marked_parse r p)
      as [(_ & err & detail & E)|(_ & extra & warned & E & Ex & _)].
    - exists [ErrorBubble]. eexists. split; [exact E | auto].
    - exists extra. eexists. split; [exact E|].
      destruct Ex as [->|Ex]; auto. }
  destruct K as (extra & c & E & Ex).
  assert (T : count isTyping extra = 0 /\ filter isUser extra = []).
  { destruct Ex as [->|[->|[html ->]]]; try (now split).
    apply assistantChildren_kinds. }
  destruct T as [T U].
  split; [exists extra; rewrite E; now split|].
  rewrite E. cbn [chatMessages requests chatInput].
  rewrite filter_app, U, List.app_nil_r, removeFirstTyping_users.
  repeat split. intros F.
  now rewrite count_app, T, Nat.add_0_r, (removeFirstTyping_first _ _ F),
    count_typing_removed.
Qed.

Lemma settled_submission_frame_witness :
  count isTyping
    (chatMessages
       (submitSettle tidy (fun s => s)
          (Resolved (Response 200 "" (Some (JStr "fine"))))
          (Page [StaticBubble "Hello"; UserBubble "hi"; TypingBubble]
                "" [] []))) = 0.
Proof.
  apply (settled_submission_frame tidy (fun s => s)
           (Resolved (Response 200 "" (Some (JStr "fine"))))
           (Page [StaticBubble "Hello"; UserBubble "hi"; TypingBubble]
                 "" [] [])).
  reflexivity.
Defined.

(** X12.  A page without a typing bubble, and without a child that has the
    id of the typing bubble in its markup, has no typing bubble after a
    whole submission, however the request ends. *)
Theorem typing_indicator_never_stays
    (dom : browser) (marked_parse : string -> string) (r : settled) (p : page) :
  count isTyping (chatMessages p) = 0 ->
  typingComesFirst dom (chatMessages p) = true ->
  count isTyping (chatMessages (submit dom marked_parse r p)) = 0.
Proof.
  intros Z F. unfold submit.
  destruct (trim_edges (chatInput p)) as [[E A]|(A & Fc & _)].
  - assert (S : submitStart p = (p, false))
      by (unfold submitStart; now rewrite E).
    now rewrite S.
  - assert (Ne : String.eqb (trim (chatInput p)) "" = false).
    { destruct (trim (chatInput p)); [discriminate Fc | reflexivity]. }
    rewrite (submitStart_sends _ Ne).
    set (q := Page _ _ _ _).
    assert (Fq : typingComesFirst dom (chatMessages q) = true)
      by now apply typingComesFirst_app.
    assert (X : exists extra,
              chatMessages (submitSettle dom marked_parse r q) =
              (removeFirstTyping dom (chatMessages q) ++ extra)%list /\
              count isTyping extra = 0).
    { destruct (submitSettle_cases dom marked_parse r q)
        as [(_ & err & detail & ->)|(_ & extra & warned & -> & Ex & _)].
      - now exists [ErrorBubble].
      - exists extra. split; [reflexivity|].
        destruct Ex as [->|[html ->]]; [reflexivity|].
        apply assistantChildren_kinds. }
    destruct X as (extra & -> & T).
    rewrite count_app, T, (removeFirstTyping_first _ _ Fq),
      count_typing_removed.
    unfold q. cbn [chatMessages]. now rewrite count_app, Z.
Qed.

Lemma typing_indicator_never_stays_witness :
  count isTyping
    (chatMessages
       (submit tidy (fun s => s) (Resolved (Response 200 "" (Some (JStr "  "))))
               (Page [StaticBubble "Hello"] "hi" [] []))) = 0.
Proof.
  apply (typing_indicator_never_stays tidy (fun s => s)
           (Resolved (Response 200 "" (Some (JStr "  "))))
           (Page [StaticBubble "Hello"] "hi" [] []));
    reflexivity.
Defined.

Lemma trim_fixed (s : string) :
  passes (fun c => negb (isSpace c)) (firstChar s) = true ->
  passes (fun c => negb (isSpace c)) (lastChar s) = true ->
  trim s = s.
Proof.
  intros Fc Lc. unfold trim.
  assert (S : trimStart s = s).
  { destruct s as [|c s]; [reflexivity|]. simpl in *.
    apply negb_true_iff in Fc. now rewrite Fc. }
  rewrite S. clear S Fc. induction s as [|c s IH]; [reflexivity|].
  destruct s as [|d s].
  - simpl in *. apply negb_true_iff in Lc. now rewrite Lc.
  - rewrite lastChar_cons in Lc by discriminate.
    cbn [trimEnd] in *. now rewrite (IH Lc).
Qed.

Lemma stringify_container (data : json) :
  isContainer data = true ->
  passes (fun c => negb (isSpace c)) (firstChar (stringify data)) = true /\
  passes (fun c => negb (isSpace c)) (lastChar (stringify data)) = true.
Proof.
  destruct data; try discriminate; intros _; cbn [stringify];
    match goal with
    | |- context [?b ++ (?m ++ ?e)] =>
        change (b ++ (m ++ e)) with (b ++ m ++ e);
        rewrite <- append_assoc
    end;
    (split; [reflexivity | now rewrite lastChar_append]).
Qed.

(** X13.  A successful response whose body is an object or an array with no
    string under [output] and none under [reply] always gets its
    assistant template: the serialized body is never empty, so the
    empty-reply guard does not fire, and the template holds the rendering
    of the serialized body as it is; nothing is logged. *)
Theorem container_body_is_always_shown
    (dom : browser) (marked_parse : string -> string)
    (res : response) (data : json) (p : page) :
  ok res = true -> body res = Some data -> isContainer data = true ->
  stringField data "output" = None -> stringField data "reply" = None ->
  chatMessages (submitSettle dom marked_parse (Resolved res) p) =
    (removeFirstTyping dom (chatMessages p) ++
     let e := extractMathSegments (stringify data) in
     let html := restoreMathSegments (marked_parse (replaced e)) (math e) in
     AssistantBubble html :: map StaticBubble (spill dom html))%list /\
  console (submitSettle dom marked_parse (Resolved res) p) = console p.
Proof.
  intros Ok B C O R.
  assert (N : data <> JNull) by (intros ->; discriminate C).
  destruct (stringify_container data C) as [Fc Lc].
  assert (E : firstStringReply data = stringify data)
    by (unfold firstStringReply; now rewrite O, R).
  unfold submitSettle, submitTry.
  rewrite Ok, B, (replyRaw_firstString _ N), E, (trim_fixed _ Fc Lc).
  cbn [negb]. destruct (stringify data) eqn:S; [discriminate Fc|].
  now split.
Qed.

Lemma container_body_is_always_shown_witness :
  chatMessages
    (submitSettle tidy (fun s => s)
       (Resolved (Response 200 "" (Some (JObj [("answer", JNum "42")]))))
       (Page [UserBubble "hi"; TypingBubble] "" [] [])) =
  [UserBubble "hi";
   AssistantBubble (String "{" (String dquote ("answer" ++ String dquote ":42}")))] /\
  console
    (submitSettle tidy (fun s => s)
       (Resolved (Response 200 "" (Some (JObj [("answer", JNum "42")]))))
       (Page [UserBubble "hi"; TypingBubble] "" [] [])) = [].
Proof.
  apply (container_body_is_always_shown tidy (fun s => s)
           (Response 200 "" (Some (JObj [("answer", JNum "42")])))
           (JObj [("answer", JNum "42")])
           (Page [UserBubble "hi"; TypingBubble] "" [] []));
    reflexivity.
Defined.

(** X14.  The connection-error bubble is what the handler appends exactly
    when the request failed or a 2xx response has a body that does not
    parse or parses to [null]; exactly then the console gets the error of
    the handler. *)
Theorem error_bubble_iff_failed_or_unreadable
    (dom : browser) (marked_parse : string -> string) (r : settled) (p : page) :
  (chatMessages (submitSettle dom marked_parse r p) =
     (removeFirstTyping dom (chatMessages p) ++ [ErrorBubble])%list <->
   failed r || unreadable r = true) /\
  ((exists err detail,
      console (submitSettle dom marked_parse r p) =
      (console p ++ detail ++
         [ConsoleError "Error talking to backend:" err])%list) <->
   failed r || unreadable r = true).
Proof.
  destruct (submitSettle_cases dom marked_parse r p)
    as [(F & err & detail & ->)|(F & extra & warned & -> & Ex & Wa)];
    rewrite F; cbn [chatMessages console].
  - split; split; try reflexivity. intros _. now exists err, detail.
  - split; split; try discriminate.
    + intros E. apply app_inv_head in E.
      destruct Ex as [->|[html ->]]; discriminate E.
    + intros (err & detail & E). apply app_inv_head in E.
      destruct Wa as [->|[label ->]].
      * now destruct detail.
      * destruct detail as [|x [|y detail]]; discriminate E.
Qed.

(** ** History replay *)

Lemma loadSettle_messages (dom : browser) (marked_parse : string -> string)
    (r : historySettled) (p : page) :
  chatMessages (loadSettle dom marked_parse r p) =
  match entries r with
  | [] => chatMessages p
  | h => flat_map (shownAs dom marked_parse) h
  end.
Proof.
  destruct r as [reason|st [[h|]|]]; cbn [loadSettle entries];
    try reflexivity; destruct (okStatus st); cbn [negb]; try reflexivity.
  destruct h as [|t h]; [reflexivity|]. now rewrite replay_messages.
Qed.

Lemma shownAs_users (dom : browser) (marked_parse : string -> string) (t : turn) :
  map userHtml (filter isUser (shownAs dom marked_parse t)) =
  if String.eqb (role t) "human" then [escapeHtml (content t)] else [].
Proof.
  unfold shownAs. destruct (String.eqb (role t) "human"); [reflexivity|].
  destruct (String.eqb (role t) "ai"); [|reflexivity].
  destruct (restoreMathSegments _ _) as [|c html]; [reflexivity|].
  change (AssistantBubble (String c html) ::
          map StaticBubble (spill dom (String c html)))
    with (assistantChildren dom (String c html)).
  now rewrite (proj2 (assistantChildren_kinds dom (String c html))).
Qed.

Lemma shownAs_inside (dom : browser) (marked_parse : string -> string) (t : turn) :
  (String.eqb (role t) "ai" = true ->
   staysInside dom (render marked_parse (trim (content t))) = true) ->
  forallb replayed (shownAs dom marked_parse t) = true /\
  List.length (shownAs dom marked_parse t) <= 1.
Proof.
  unfold shownAs, staysInside, render. cbv zeta.
  destruct (String.eqb (role t) "human"); [intros _; split; simpl; lia|].
  destruct (String.eqb (role t) "ai"); [|intros _; split; simpl; lia].
  intros H. specialize (H eq_refl).
  destruct (restoreMathSegments _ _) as [|c html]; [split; simpl; lia|].
  destruct (spill dom (String c html)); [split; simpl; lia | discriminate H].
Qed.

(** X15.  After a replay that brought entries the user bubbles of the list
    are the escaped contents of the human turns in the order received;
    and when the rendering of every assistant turn keeps inside its
    template, the list holds nothing but user bubbles and assistant
    bubbles that are not empty, at most one per turn. *)
Theorem replay_leaves_only_turn_bubbles
    (dom : browser) (marked_parse : string -> string)
    (r : historySettled) (p : page) :
  entries r <> [] ->
  map userHtml (filter isUser (chatMessages (loadSettle dom marked_parse r p))) =
  map (fun t => escapeHtml (content t))
      (filter (fun t => String.eqb (role t) "human") (entries r)) /\
  (forallb
     (fun t =>
        staysInside dom
          (restoreMathSegments
             (marked_parse (replaced (extractMathSegments (trim (content t)))))
             (math (extractMathSegments (trim (content t))))))
     (filter (fun t => String.eqb (role t) "ai") (entries r)) = true ->
   forallb replayed (chatMessages (loadSettle dom marked_parse r p)) = true /\
   List.length (chatMessages (loadSettle dom marked_parse r p)) <=
     List.length (entries r)).
Proof.
  intros Ne. rewrite loadSettle_messages.
  destruct (entries r) as [|t0 h0] eqn:En; [now elim Ne|].
  clear. generalize (t0 :: h0). intros h. split.
  - induction h as [|t h IH]; [reflexivity|].
    cbn [flat_map filter]. rewrite filter_app, map_app, IH, shownAs_users.
    now destruct (String.eqb (role t) "human").
  - induction h as [|t h IH]; [now split|].
    cbn [flat_map filter]. intros H.
    assert (Ht : String.eqb (role t) "ai" = true ->
                 staysInside dom (render marked_parse (trim (content t))) = true).
    { intros A. rewrite A in H. cbn [forallb] in H.
      now apply andb_true_iff in H as [H _]. }
    assert (Hh : forallb
                   (fun t => staysInside dom (render marked_parse (trim (content t))))
                   (filter (fun t => String.eqb (role t) "ai") h) = true).
    { destruct (String.eqb (role t) "ai"); [|exact H].
      cbn [forallb] in H. now apply andb_true_iff in H as [_ H]. }
    destruct (IH Hh) as [R L].
    destruct (shownAs_inside dom marked_parse t Ht) as [R1 L1].
    rewrite forallb_app, List.length_app, R, R1. cbn [List.length].
    split; [reflexivity | lia].
Qed.

Lemma replay_leaves_only_turn_bubbles_witness :
  map userHtml
    (filter isUser
       (chatMessages
          (loadSettle tidy (fun s => s)
             (HistoryResolved 200
                (Some (Some [Turn "human" "a<b"; Turn "ai" ""; Turn "ai" "$x$"])))
             (Page [StaticBubble "Hello"] "" [] [])))) =
  ["a&lt;b"] /\
  forallb replayed
    (chatMessages
       (loadSettle tidy (fun s => s)
          (HistoryResolved 200
             (Some (Some [Turn "human" "a<b"; Turn "ai" ""; Turn "ai" "$x$"])))
          (Page [StaticBubble "Hello"] "" [] []))) = true /\
  List.length
    (chatMessages
       (loadSettle tidy (fun s => s)
          (HistoryResolved 200
             (Some (Some [Turn "human" "a<b"; Turn "ai" ""; Turn "ai" "$x$"])))
          (Page [StaticBubble "Hello"] "" [] []))) <= 3.
Proof.
  destruct (replay_leaves_only_turn_bubbles tidy (fun s => s)
              (HistoryResolved 200
                 (Some (Some [Turn "human" "a<b"; Turn "ai" ""; Turn "ai" "$x$"])))
              (Page [StaticBubble "Hello"] "" [] []))
    as [U In]; [discriminate|].
  split; [exact U|]. apply In. reflexivity.
Defined.

(** X16.  Replaying a history that has entries does not depend on what the page
    showed before, and replaying the same history again changes nothing;
    the input, the requests and the console are not touched. *)
Theorem replay_is_idempotent
    (dom : browser) (marked_parse : string -> string)
    (r : historySettled) (p q : page) :
  entries r <> [] ->
  chatMessages (loadSettle dom marked_parse r p) =
    chatMessages (loadSettle dom marked_parse r q) /\
  loadSettle dom marked_parse r (loadSettle dom marked_parse r p) =
    loadSettle dom marked_parse r p /\
  chatInput (loadSettle dom marked_parse r p) = chatInput p /\
  requests (loadSettle dom marked_parse r p) = requests p /\
  console (loadSettle dom marked_parse r p) = console p.
Proof.
  intros Ne. split.
  { rewrite !loadSettle_messages.
    destruct (entries r); [now elim Ne | reflexivity]. }
  destruct r as [reason|st [[h|]|]]; cbn [entries] in Ne;
    try (now elim Ne).
  cbn [loadSettle]. destruct (okStatus st); [|now elim Ne]. cbn [negb].
  destruct h as [|t h]; [now elim Ne|].
  set (h' := t :: h).
  assert (F : forall a b,
            chatInput a = chatInput b -> requests a = requests b ->
            console a = console b ->
            fold_left (replayTurn dom marked_parse) h' (setMessages [] a) =
            fold_left (replayTurn dom marked_parse) h' (setMessages [] b)).
  { intros a b I R C. unfold setMessages. now rewrite I, R, C. }
  assert (K : forall l a,
            chatInput (fold_left (replayTurn dom marked_parse) l a) = chatInput a /\
            requests (fold_left (replayTurn dom marked_parse) l a) = requests a /\
            console (fold_left (replayTurn dom marked_parse) l a) = console a).
  { induction l as [|x l IH]; intros a; [now repeat split|].
    cbn [fold_left]. destruct (IH (replayTurn dom marked_parse a x)) as (I & R & C).
    rewrite I, R, C. unfold replayTurn.
    destruct (String.eqb (role x) "human"); [now repeat split|].
    destruct (String.eqb (role x) "ai"); [|now repeat split].
    destruct (String.eqb (render marked_parse (trim (content x))) "");
      now repeat split. }
  destruct (K h' (setMessages [] p)) as (I & R & C).
  split; [apply F; assumption|]. now repeat split.
Qed.

Lemma replay_is_idempotent_witness :
  chatMessages
    (loadSettle tidy (fun s => s)
       (HistoryResolved 200 (Some (Some [Turn "human" "hi"])))
       (Page [StaticBubble "Hello"] "" [] [])) =
  chatMessages
    (loadSettle tidy (fun s => s)
       (HistoryResolved 200 (Some (Some [Turn "human" "hi"])))
       (Page [ClearedBubble; UserBubble "x"] "draft" [] [])).
Proof.
  apply (replay_is_idempotent tidy (fun s => s)
           (HistoryResolved 200 (Some (Some [Turn "human" "hi"])))
           (Page [StaticBubble "Hello"] "" [] [])
           (Page [ClearedBubble; UserBubble "x"] "draft" [] [])).
  discriminate.
Defined.

(** ** Menu and chat panel *)

Lemma contains_app (l : ClassList.t) (c c' : string) :
  ClassList.contains (l ++ [c])%list c' =
  ClassList.contains l c' || String.eqb c' c.
Proof.
  unfold ClassList.contains. rewrite existsb_app. simpl.
  now rewrite orb_false_r.
Qed.

Lemma contains_add (l : ClassList.t) (c c' : string) :
  ClassList.contains (ClassList.add l c) c' =
  ClassList.contains l c' || String.eqb c' c.
Proof.
  unfold ClassList.add. destruct (ClassList.contains l c) eqn:E.
  - destruct (String.eqb_spec c' c) as [->|]; [|now rewrite orb_false_r].
    now rewrite E.
  - apply contains_app.
Qed.

Lemma contains_remove (l : ClassList.t) (c c' : string) :
  ClassList.contains (ClassList.remove l c) c' =
  ClassList.contains l c' && negb (String.eqb c' c).
Proof.
  unfold ClassList.contains, ClassList.remove.
  induction l as [|x l IH]; [reflexivity|]. simpl.
  destruct (String.eqb_spec c x) as [->|N]; simpl; rewrite IH.
  - destruct (String.eqb_spec c' x); simpl; [now rewrite andb_false_r|reflexivity].
  - destruct (String.eqb_spec c' x) as [->|]; simpl; [|reflexivity].
    destruct (String.eqb_spec x c) as [->|]; [now elim N | reflexivity].
Qed.

Lemma contains_toggle (l : ClassList.t) (c c' : string) :
  ClassList.contains (ClassList.toggle l c) c' =
  if String.eqb c' c then negb (ClassList.contains l c')
  else ClassList.contains l c'.
Proof.
  unfold ClassList.toggle. destruct (ClassList.contains l c) eqn:E.
  - rewrite contains_remove.
    destruct (String.eqb_spec c' c) as [->|]; simpl;
      [now rewrite E | now rewrite andb_true_r].
  - rewrite contains_app.
    destruct (String.eqb_spec c' c) as [->|]; simpl;
      [now rewrite E | now rewrite orb_false_r].
Qed.

Lemma chatOpen_handle (u : chrome) (e : event) :
  chatOpen (handle u e) =
  match e with
  | MenuClick => chatOpen u
  | AskClick => true
  | CloseClick => false
  | MouseDown on => chatOpen u && (inChatPanel on || isAskBtn on)
  | KeyDown key => chatOpen u && negb (String.eqb key "Escape")
  end.
Proof.
  unfold chatOpen. destruct e as [| | |on|key]; cbn [handle].
  - reflexivity.
  - cbn [openChat chatModal]. rewrite contains_remove. cbn.
    now rewrite andb_false_r.
  - cbn [closeChat chatModal]. rewrite contains_add. cbn.
    now rewrite orb_true_r.
  - destruct (ClassList.contains (chatModal u) "hidden") eqn:H;
      [now rewrite H|].
    destruct (inChatPanel on), (isAskBtn on); cbn [negb andb orb];
      rewrite ?H; try reflexivity;
      cbn [closeChat chatModal]; rewrite contains_add; cbn;
      now rewrite orb_true_r.
  - destruct (ClassList.contains (chatModal u) "hidden") eqn:H;
      cbn [negb andb]; [now rewrite H|].
    destruct (String.eqb key "Escape"); cbn [negb]; rewrite ?H;
      try reflexivity.
    cbn [closeChat chatModal]. rewrite contains_add. cbn.
    now rewrite orb_true_r.
Qed.

Lemma run_snoc (events : list event) (e : event) (u : chrome) :
  run (events ++ [e])%list u = handle (run events u) e.
Proof. unfold run. now rewrite fold_left_app. Qed.

(** X17.  Only the ask button opens the chat: if the chat is on screen after
    some events, it was on screen before them or one of them was a click
    on the ask button. *)
Theorem only_ask_button_opens_chat (events : list event) (u : chrome) :
  chatOpen (run events u) = true ->
  chatOpen u = true \/ existsb isAskClick events = true.
Proof.
  revert u. induction events as [|e events IH]; intros u H; [now left|].
  change (run (e :: events) u) with (run events (handle u e)) in H.
  destruct (IH _ H) as [K|K]; [|right; simpl; now rewrite K, orb_true_r].
  rewrite chatOpen_handle in K. destruct e as [| | |on|key].
  - now left.
  - now right.
  - discriminate K.
  - apply andb_true_iff in K as [K _]. now left.
  - apply andb_true_iff in K as [K _]. now left.
Qed.

Lemma only_ask_button_opens_chat_witness :
  chatOpen (Chrome ["hidden"] ["fixed"; "hidden"] 0) = true \/
  existsb isAskClick
    [MenuClick; MouseDown (Target false true); AskClick; KeyDown "a"] = true.
Proof.
  apply (only_ask_button_opens_chat
           [MenuClick; MouseDown (Target false true); AskClick; KeyDown "a"]
           (Chrome ["hidden"] ["fixed"; "hidden"] 0)).
  reflexivity.
Defined.

(** X18.  Whatever happened before, the chat is on screen after a click on the
    ask button, also when the press that comes with the click landed
    outside of the panel; and it is off screen after a click on the close
    button, after the Escape key, and after a press outside of the panel
    and of the ask button. *)
Theorem last_event_decides_chat (events : list event) (u : chrome) (on : target) :
  chatOpen (run (events ++ [AskClick]) u) = true /\
  chatOpen (run (events ++ [MouseDown on; AskClick]) u) = true /\
  chatOpen (run (events ++ [CloseClick]) u) = false /\
  chatOpen (run (events ++ [KeyDown "Escape"]) u) = false /\
  chatOpen (run (events ++ [MouseDown (Target false false)]) u) = false.
Proof.
  replace (events ++ [MouseDown on; AskClick])%list
    with ((events ++ [MouseDown on]) ++ [AskClick])%list
    by now rewrite <- List.app_assoc.
  rewrite !run_snoc, !chatOpen_handle. cbn.
  rewrite !andb_false_r. now repeat split.
Qed.

Lemma handle_menu (u : chrome) (e : event) (c : string) :
  ClassList.contains (mobileMenu (handle u e)) c =
  if isMenuClick e && String.eqb c "hidden"
  then negb (ClassList.contains (mobileMenu u) c)
  else ClassList.contains (mobileMenu u) c.
Proof.
  destruct e as [| | |on|key]; cbn [handle isMenuClick andb].
  - cbn [mobileMenu]. apply contains_toggle.
  - reflexivity.
  - reflexivity.
  - destruct (ClassList.contains (chatModal u) "hidden"); [reflexivity|].
    now destruct (negb (inChatPanel on) && negb (isAskBtn on)).
  - now destruct (negb (ClassList.contains (chatModal u) "hidden") &&
                  String.eqb key "Escape").
Qed.

Lemma handle_modal_other (u : chrome) (e : event) (c : string) :
  String.eqb c "hidden" = false ->
  ClassList.contains (chatModal (handle u e)) c =
  ClassList.contains (chatModal u) c.
Proof.
  intros N.
  assert (A : ClassList.contains (chatModal (closeChat u)) c =
              ClassList.contains (chatModal u) c).
  { cbn [closeChat chatModal]. now rewrite contains_add, N, orb_false_r. }
  destruct e as [| | |on|key]; cbn [handle].
  - reflexivity.
  - cbn [openChat chatModal]. now rewrite contains_remove, N, andb_true_r.
  - exact A.
  - destruct (ClassList.contains (chatModal u) "hidden"); [reflexivity|].
    now destruct (negb (inChatPanel on) && negb (isAskBtn on)).
  - now destruct (negb (ClassList.contains (chatModal u) "hidden") &&
                  String.eqb key "Escape").
Qed.

(** X19.  The mobile menu is hidden or shown by the parity of the clicks on the
    menu button and by nothing else; and no event touches a class other
    than [hidden], on the menu or on the chat modal. *)
Theorem menu_follows_click_parity (events : list event) (u : chrome) (c : string) :
  ClassList.contains (mobileMenu (run events u)) "hidden" =
    xorb (ClassList.contains (mobileMenu u) "hidden")
         (Nat.odd (List.length (filter isMenuClick events))) /\
  (String.eqb c "hidden" = false ->
   ClassList.contains (mobileMenu (run events u)) c =
     ClassList.contains (mobileMenu u) c /\
   ClassList.contains (chatModal (run events u)) c =
     ClassList.contains (chatModal u) c).
Proof.
  split.
  - revert u. induction events as [|e events IH]; intros u.
    + simpl. now rewrite xorb_false_r.
    + change (run (e :: events) u) with (run events (handle u e)).
      rewrite IH, handle_menu. cbn [filter].
      destruct (isMenuClick e); cbn [andb String.eqb]; [|reflexivity].
      change (String.eqb "hidden" "hidden") with true. cbv iota.
      cbn [List.length]. rewrite Nat.odd_succ, <- Nat.negb_odd.
      now destruct (ClassList.contains (mobileMenu u) "hidden"),
                   (Nat.odd (List.length (filter isMenuClick events))).
  - intros N. revert u. induction events as [|e events IH]; intros u;
      [now split|].
    change (run (e :: events) u) with (run events (handle u e)).
    destruct (IH (handle u e)) as [M C]. rewrite M, C.
    rewrite handle_menu, N, andb_false_r. split; [reflexivity|].
    now apply handle_modal_other.
Qed.

Lemma menu_follows_click_parity_witness :
  ClassList.contains
    (mobileMenu (run [MenuClick; AskClick; MenuClick; MenuClick]
                     (Chrome ["md:hidden"; "hidden"] ["hidden"] 0)))
    "md:hidden" =
  ClassList.contains (mobileMenu (Chrome ["md:hidden"; "hidden"] ["hidden"] 0))
    "md:hidden" /\
  ClassList.contains
    (chatModal (run [MenuClick; AskClick; MenuClick; MenuClick]
                    (Chrome ["md:hidden"; "hidden"] ["hidden"] 0)))
    "md:hidden" =
  ClassList.contains (chatModal (Chrome ["md:hidden"; "hidden"] ["hidden"] 0))
    "md:hidden".
Proof.
  apply (menu_follows_click_parity [MenuClick; AskClick; MenuClick; MenuClick]
           (Chrome ["md:hidden"; "hidden"] ["hidden"] 0) "md:hidden").
  reflexivity.
Defined.
